(** * ReSpec: the document writer (tools/respecDocWriter.js) and the example
      numbering module (src/core/examples.js), embedded and verified.

    The JavaScript sources are embedded shallowly.  Numbers that the code
    only ever uses as integers are [Z]; what [parseInt] returns is the
    integer value of a double, [NaN] or an infinity.  Text that is only
    concatenated and searched is a [string], which holds the UTF-8
    encoding of the JavaScript string; text that goes through
    [encodeURIComponent] and [decodeURIComponent], and the markup, is a
    list of UTF-16 code units, because the builtins are defined on code
    units.  A file holds octets.  Asynchronous code is written in a
    small completion monad over a world that records every observable
    effect, in program order; what the program cannot decide (the outcome
    of every call into puppeteer, the file system or the page) is a field
    of an environment.

    The embedding comes first, module by module, then the properties. *)

From Stdlib Require Import ZArith List String Ascii Lia Bool.
From stdpp Require Import gmap strings list pretty.

Open Scope string_scope.
Open Scope list_scope.
Open Scope Z_scope.

(** ** Text helpers *)

(** [String(n)] and template interpolation of an integer-valued number. *)
Definition String_of (n : Z) : string := pretty n.

(** [s.includes(t)]. *)
Fixpoint includes (s t : string) : bool :=
  String.prefix t s ||
  match s with
  | EmptyString => false
  | String _ s' => includes s' t
  end.

(** [c] occurs in [s]. *)
Fixpoint has_char (c : ascii) (s : string) : bool :=
  match s with
  | EmptyString => false
  | String a s' => Ascii.eqb a c || has_char c s'
  end.

(** ** src/core/examples.js *)

Module Examples.

Inductive LocalName := aside | pre.

(** What [run] reads of an element matched by
    [pre.example, pre.illegal-example, aside.example]. *)
Record Element := mkElement {
  localName : LocalName;
  illegal_example : bool;     (* classList.contains("illegal-example") *)
  elem_title : string;        (* example.title *)
  elem_id : string;           (* example.id *)
  innerHTML : string;
  closest_aside : bool        (* example.closest("aside") is not null *)
}.

(** The [Report] typedef; [None] is a property that is not set. *)
Record Report := mkReport {
  number : Z;
  illegal : bool;
  title : option string;
  content : option string
}.

(** The [div.marker] that [makeTitle] builds. *)
Record Marker := mkMarker {
  self_link : string;              (* l10n.example *)
  bdi : string;                    (* the number, as rendered *)
  example_title : option string    (* span.example-title *)
}.

(** One element after [run] has handled it. *)
Record Processed := mkProcessed {
  marker : Marker;
  wrapper_id : string;        (* id of the aside, or of the new div *)
  href : string;              (* of a.self-link *)
  pub : option Report         (* the report given to pub("example", _) *)
}.

Section Run.

(** From [getIntlData(localizationStrings)]. *)
Variable l10n_example : string.
(** [addId(elem, pfx, txt)] of core/utils.js, as the id the element has
    afterwards, given the id it had. *)
Variable addId : string -> string -> string -> string.

Definition truthy (s : string) : bool :=
  match s with EmptyString => false | _ => true end.

Definition makeTitle (elem : Element) (num : Z) (report : Report)
  : Marker * Report :=
  let report := {| number := number report; illegal := illegal report;
                   title := Some (elem_title elem);
                   content := content report |} in
  let number := if 0 <? num then " " +:+ String_of num else "" in
  let title := if truthy (elem_title elem)
               then Some (elem_title elem) else None in
  ({| self_link := l10n_example; bdi := number; example_title := title |},
   report).

(** The body of the [forEach] callback: the counter before, the element,
    and the counter after with what was done to the element. *)
Definition step (number : Z) (example : Element) : Z * Processed :=
  let illegal := illegal_example example in
  let report := {| number := number; illegal := illegal;
                   title := None; content := None |} in
  let title := elem_title example in
  match localName example with
  | aside =>
      let number := number + 1 in
      let '(div, report) := makeTitle example number report in
      let id := if truthy title
                then addId (elem_id example)
                           ("example-" +:+ String_of number) title
                else addId (elem_id example) "example" (String_of number) in
      (number,
       {| marker := div; wrapper_id := id; href := "#" +:+ id;
          pub := Some report |})
  | pre =>
      let inAside := closest_aside example in
      let number := if inAside then number else number + 1 in
      let report := {| Examples.number := Examples.number report;
                       Examples.illegal := Examples.illegal report;
                       Examples.title := Examples.title report;
                       content := Some (innerHTML example) |} in
      let id := elem_id example in
      let '(exampleTitle, report) :=
        makeTitle example (if inAside then 0 else number) report in
      let div_id :=
        if truthy title
        then addId id ("example-" +:+ String_of number) title
        else id in
      let div_id := addId div_id "example" (String_of number) in
      (number,
       {| marker := exampleTitle; wrapper_id := div_id;
          href := "#" +:+ div_id;
          pub := if inAside then None else Some report |})
  end.

(** [examples.forEach(...)] with the counter at [number]. *)
Fixpoint forEach (number : Z) (examples : list Element) : list Processed :=
  match examples with
  | [] => []
  | example :: rest =>
      let '(number, p) := step number example in
      p :: forEach number rest
  end.

Definition run (examples : list Element) : list Processed :=
  forEach 0 examples.

(** The reports in the order [pub] received them. *)
Definition published (examples : list Element) : list Report :=
  omap pub (run examples).

(** The elements for which the callback executes [++number]. *)
Definition increments (example : Element) : bool :=
  match localName example with
  | aside => true
  | pre => negb (closest_aside example)
  end.

Definition counter_after (number : Z) (examples : list Element) : Z :=
  number + Z.of_nat (List.length (List.filter increments examples)).

End Run.

End Examples.


(** ** Strings of UTF-16 code units, and the URI builtins *)

Module URI.

(** A JavaScript string as the sequence of its code units. *)
Definition DOMString := list Z.

Definition code_unit (c : Z) : Prop := 0 <= c < 65536.

(** An ASCII literal of the program as code units. *)
Definition units (s : string) : DOMString :=
  List.map (fun a => Z.of_nat (nat_of_ascii a)) (list_ascii_of_string s).

Definition between (lo hi c : Z) : bool := (lo <=? c) && (c <=? hi).

Definition is_digit (c : Z) : bool := between 48 57 c.
Definition is_alpha (c : Z) : bool := between 65 90 c || between 97 122 c.

(** uriUnescaped: alphanumerics and the marks [-_.!~*'()]. *)
Definition uriUnescaped (c : Z) : bool :=
  is_alpha c || is_digit c ||
  existsb (Z.eqb c) [45; 95; 46; 33; 126; 42; 39; 40; 41].

Definition is_lead (c : Z) : bool := between 55296 56319 c.   (* D800..DBFF *)
Definition is_trail (c : Z) : bool := between 56320 57343 c.  (* DC00..DFFF *)

(** The octets of the UTF-8 encoding of a code point. *)
Definition utf8 (cp : Z) : list Z :=
  if cp <? 128 then [cp]
  else if cp <? 2048 then [192 + cp / 64; 128 + cp mod 64]
  else if cp <? 65536 then
    [224 + cp / 4096; 128 + (cp / 64) mod 64; 128 + cp mod 64]
  else
    [240 + cp / 262144; 128 + (cp / 4096) mod 64;
     128 + (cp / 64) mod 64; 128 + cp mod 64].

Definition hexdigit (n : Z) : Z := if n <? 10 then 48 + n else 55 + n.

(** ["%XX"], upper-case hexadecimal. *)
Definition percent (octet : Z) : DOMString :=
  [37; hexdigit (octet / 16); hexdigit (octet mod 16)].

Definition escape (cp : Z) : DOMString := flat_map percent (utf8 cp).

(** [encodeURIComponent]: ECMAScript Encode with the set uriUnescaped.
    [None] is a URIError, which an unpaired surrogate raises. *)
Fixpoint encodeURIComponent (s : DOMString) : option DOMString :=
  match s with
  | [] => Some []
  | c :: rest =>
      if uriUnescaped c then
        match encodeURIComponent rest with
        | Some r => Some (c :: r)
        | None => None
        end
      else if is_trail c then None
      else if is_lead c then
        match rest with
        | d :: rest' =>
            if is_trail d then
              let cp := (c - 55296) * 1024 + (d - 56320) + 65536 in
              match encodeURIComponent rest' with
              | Some r => Some (escape cp ++ r)
              | None => None
              end
            else None
        | [] => None
        end
      else
        match encodeURIComponent rest with
        | Some r => Some (escape c ++ r)
        | None => None
        end
  end.

Definition hexval (c : Z) : option Z :=
  if between 48 57 c then Some (c - 48)
  else if between 65 70 c then Some (c - 55)
  else if between 97 102 c then Some (c - 87)
  else None.

Definition ParseHexOctet (h l : Z) : option Z :=
  match hexval h, hexval l with
  | Some a, Some b => Some (16 * a + b)
  | _, _ => None
  end.

(** The payload of a continuation octet [10xxxxxx]. *)
Definition continuation (b : Z) : option Z :=
  if between 128 191 b then Some (b - 128) else None.

Definition UTF16EncodeCodePoint (cp : Z) : DOMString :=
  if cp <? 65536 then [cp]
  else [55296 + (cp - 65536) / 1024; 56320 + (cp - 65536) mod 1024].

(** The code point of a two, three and four octet sequence; [None] when
    the octets are not the UTF-8 encoding of a code point. *)
Definition decode2 (b0 b1 : Z) : option Z :=
  match continuation b1 with
  | Some c1 =>
      let cp := (b0 - 192) * 64 + c1 in
      if 128 <=? cp then Some cp else None
  | None => None
  end.

Definition decode3 (b0 b1 b2 : Z) : option Z :=
  match continuation b1, continuation b2 with
  | Some c1, Some c2 =>
      let cp := (b0 - 224) * 4096 + c1 * 64 + c2 in
      if (2048 <=? cp) && negb (between 55296 57343 cp)
      then Some cp else None
  | _, _ => None
  end.

Definition decode4 (b0 b1 b2 b3 : Z) : option Z :=
  match continuation b1, continuation b2, continuation b3 with
  | Some c1, Some c2, Some c3 =>
      let cp := (b0 - 240) * 262144 + c1 * 4096 + c2 * 64 + c3 in
      if between 65536 1114111 cp then Some cp else None
  | _, _, _ => None
  end.

(** ["%XX"] at the head of [s]: the octet and what follows it. *)
Definition escaped (p h l : Z) : option Z :=
  if p =? 37 then ParseHexOctet h l else None.

(** [decodeURIComponent]: ECMAScript Decode with an empty reserved set.
    [None] is a URIError. *)
Fixpoint decodeURIComponent (s : DOMString) : option DOMString :=
  match s with
  | [] => Some []
  | c :: rest =>
      if negb (c =? 37) then
        match decodeURIComponent rest with
        | Some r => Some (c :: r)
        | None => None
        end
      else
        match rest with
        | h :: l :: r0 =>
            match ParseHexOctet h l with
            | None => None
            | Some B =>
                if B <? 128 then
                  match decodeURIComponent r0 with
                  | Some r => Some (B :: r)
                  | None => None
                  end
                else if B <? 192 then None
                else if B <? 224 then
                  match r0 with
                  | p1 :: h1 :: l1 :: r1 =>
                      match escaped p1 h1 l1 with
                      | Some B1 =>
                          match decode2 B B1, decodeURIComponent r1 with
                          | Some cp, Some r =>
                              Some (UTF16EncodeCodePoint cp ++ r)
                          | _, _ => None
                          end
                      | None => None
                      end
                  | _ => None
                  end
                else if B <? 240 then
                  match r0 with
                  | p1 :: h1 :: l1 :: p2 :: h2 :: l2 :: r2 =>
                      match escaped p1 h1 l1, escaped p2 h2 l2 with
                      | Some B1, Some B2 =>
                          match decode3 B B1 B2, decodeURIComponent r2 with
                          | Some cp, Some r =>
                              Some (UTF16EncodeCodePoint cp ++ r)
                          | _, _ => None
                          end
                      | _, _ => None
                      end
                  | _ => None
                  end
                else if B <? 248 then
                  match r0 with
                  | p1 :: h1 :: l1 :: p2 :: h2 :: l2 :: p3 :: h3 :: l3 :: r3 =>
                      match escaped p1 h1 l1, escaped p2 h2 l2,
                            escaped p3 h3 l3 with
                      | Some B1, Some B2, Some B3 =>
                          match decode4 B B1 B2 B3,
                                decodeURIComponent r3 with
                          | Some cp, Some r =>
                              Some (UTF16EncodeCodePoint cp ++ r)
                          | _, _ => None
                          end
                      | _, _, _ => None
                      end
                  | _ => None
                  end
                else None
            end
        | _ => None
        end
  end.

(** *** The regular expression [/^data:\w+\/\w+;charset=utf-8,/] *)

Definition is_word (c : Z) : bool := is_alpha c || is_digit c || (c =? 95).

Fixpoint skip_word (s : DOMString) : DOMString :=
  match s with
  | c :: rest => if is_word c then skip_word rest else s
  | [] => []
  end.

(** [\w+], greedy.  Every use below is followed by a character that is
    not a word character, so no shorter match can succeed where the
    longest one fails. *)
Definition word_plus (s : DOMString) : option DOMString :=
  match s with
  | c :: rest => if is_word c then Some (skip_word rest) else None
  | [] => None
  end.

Fixpoint literal (l s : DOMString) : option DOMString :=
  match l, s with
  | [], _ => Some s
  | a :: l', c :: s' => if a =? c then literal l' s' else None
  | _ :: _, [] => None
  end.

(** What follows a match of the expression at the start of [s]. *)
Definition match_data_prefix (s : DOMString) : option DOMString :=
  match literal (units "data:") s with
  | Some r1 =>
      match word_plus r1 with
      | Some r2 =>
          match literal (units "/") r2 with
          | Some r3 =>
              match word_plus r3 with
              | Some r4 => literal (units ";charset=utf-8,") r4
              | None => None
              end
          | None => None
          end
      | None => None
      end
  | None => None
  end.

(** [dataURL.replace(/^data:\w+\/\w+;charset=utf-8,/, "")]. *)
Definition replace_data_prefix (dataURL : DOMString) : DOMString :=
  match match_data_prefix dataURL with
  | Some rest => rest
  | None => dataURL
  end.

(** Modelled from the spec: [rsDocToDataURL] of the module core/exporter,
    which is not among the sources.  It returns the fixed prefix
    [data:<mime>;charset=utf-8,] followed by the percent-encoding of the
    serialized document. *)
Definition rsDocToDataURL (mimeType : string) (serialized : DOMString)
  : option DOMString :=
  match encodeURIComponent serialized with
  | Some encodedString =>
      Some (units "data:" ++ units mimeType ++ units ";charset=utf-8,"
              ++ encodedString)
  | None => None
  end.

(** Lines 202-203 of [evaluateHTML]. *)
Definition decodeDataURL (dataURL : DOMString) : option DOMString :=
  let encodedString := replace_data_prefix dataURL in
  decodeURIComponent encodedString.

(** The MIME types that [^\w+\/\w+$] matches, such as text/html. *)
Definition is_word_mime (mimeType : string) : bool :=
  match word_plus (units mimeType) with
  | Some (c :: rest) =>
      (c =? 47) && match word_plus rest with
                   | Some [] => true
                   | _ => false
                   end
  | _ => false
  end.

(** [s.isWellFormed()]: no unpaired surrogate. *)
Fixpoint isWellFormed (s : DOMString) : bool :=
  match s with
  | [] => true
  | c :: rest =>
      if is_trail c then false
      else if is_lead c then
        match rest with
        | d :: rest' => is_trail d && isWellFormed rest'
        | [] => false
        end
      else isWellFormed rest
  end.

(** [x] in front of a result, when there is one. *)
Definition lift_cons (x : DOMString) (o : option DOMString) :=
  match o with Some r => Some (x ++ r) | None => None end.

(** *** Strings as UTF-8 octets *)

(** The code points that an encoder to UTF-8 reads from a string: a
    surrogate pair is one code point, and an unpaired surrogate is read as
    U+FFFD, the replacement character. *)
Fixpoint scalar_values (s : DOMString) : list Z :=
  match s with
  | [] => []
  | c :: rest =>
      if is_trail c then 65533 :: scalar_values rest
      else if is_lead c then
        match rest with
        | d :: rest' =>
            if is_trail d
            then ((c - 55296) * 1024 + (d - 56320) + 65536)
                   :: scalar_values rest'
            else 65533 :: scalar_values rest
        | [] => [65533]
        end
      else c :: scalar_values rest
  end.

(** A code point that is not a surrogate. *)
Definition is_scalar (cp : Z) : bool :=
  between 0 1114111 cp && negb (between 55296 57343 cp).

(** [Buffer.from(s, "utf-8")]: the octets that [writeFile(path, s, "utf-8")]
    writes. *)
Definition utf8_encode (s : DOMString) : list Z :=
  flat_map utf8 (scalar_values s).

(** [s.toWellFormed()]: every unpaired surrogate replaced by U+FFFD. *)
Definition toWellFormed (s : DOMString) : DOMString :=
  flat_map UTF16EncodeCodePoint (scalar_values s).

(** The string that a sequence of octets is the UTF-8 encoding of;
    [None] when it is the encoding of none. *)
Fixpoint utf8_decode (octets : list Z) : option DOMString :=
  match octets with
  | [] => Some []
  | b0 :: r0 =>
      if b0 <? 128 then lift_cons [b0] (utf8_decode r0)
      else if b0 <? 192 then None
      else if b0 <? 224 then
        match r0 with
        | b1 :: r1 =>
            match decode2 b0 b1 with
            | Some cp => lift_cons (UTF16EncodeCodePoint cp) (utf8_decode r1)
            | None => None
            end
        | _ => None
        end
      else if b0 <? 240 then
        match r0 with
        | b1 :: b2 :: r2 =>
            match decode3 b0 b1 b2 with
            | Some cp => lift_cons (UTF16EncodeCodePoint cp) (utf8_decode r2)
            | None => None
            end
        | _ => None
        end
      else if b0 <? 248 then
        match r0 with
        | b1 :: b2 :: b3 :: r3 =>
            match decode4 b0 b1 b2 b3 with
            | Some cp => lift_cons (UTF16EncodeCodePoint cp) (utf8_decode r3)
            | None => None
            end
        | _ => None
        end
      else None
  end.

End URI.


(** ** Numbers and strings of the version check *)

Module JS.

(** An element of the version array.  [NaN] is what [parseInt] gives for
    a string without leading digits and an infinity what it gives for
    digits beyond the range of a double; [Null] is what either arrives
    as, inside an array, when [page.evaluate] passes the array by
    value. *)
Inductive Num := Int (n : Z) | NaN | Infinity (negative : bool) | Null.

Definition by_value (v : Num) : Num :=
  match v with NaN | Infinity _ => Null | _ => v end.

(** [a < k] for an array element that may be missing ([undefined]). *)
Definition lt (a : option Num) (k : Z) : bool :=
  match a with
  | Some (Int n) => n <? k
  | Some (Infinity negative) => negative
  | Some Null => 0 <? k
  | Some NaN | None => false
  end.

(** [a === k]. *)
Definition strict_eq (a : option Num) (k : Z) : bool :=
  match a with
  | Some (Int n) => n =? k
  | _ => false
  end.

(** StrWhiteSpaceChar, in UTF-8.  One octet: TAB, LF, VT, FF, CR, SP. *)
Definition is_space (a : ascii) : bool :=
  existsb (Nat.eqb (nat_of_ascii a)) [9; 10; 11; 12; 13; 32]%nat.

(** Two octets: U+00A0. *)
Definition is_space2 (a b : ascii) : bool :=
  Nat.eqb (nat_of_ascii a) 194 && Nat.eqb (nat_of_ascii b) 160.

(** Three octets: U+1680, U+2000 to U+200A, U+2028, U+2029, U+202F,
    U+205F, U+3000 and U+FEFF. *)
Definition is_space3 (a b c : ascii) : bool :=
  let x := nat_of_ascii a in
  let y := nat_of_ascii b in
  let z := nat_of_ascii c in
  existsb
    (fun t : nat * nat * nat =>
       let '(x', y', z') := t in
       Nat.eqb x x' && Nat.eqb y y' && Nat.eqb z z')
    [ (225, 154, 128); (226, 128, 168); (226, 128, 169); (226, 128, 175);
      (226, 129, 159); (227, 128, 128); (239, 187, 191) ]%nat
  || (Nat.eqb x 226 && Nat.eqb y 128 && Nat.leb 128 z && Nat.leb z 138).

Fixpoint trim_start (s : string) : string :=
  match s with
  | String a rest =>
      if is_space a then trim_start rest
      else if Nat.eqb (nat_of_ascii a) 194 then
        match rest with
        | String b rest1 => if is_space2 a b then trim_start rest1 else s
        | EmptyString => s
        end
      else if Nat.leb 225 (nat_of_ascii a) then
        match rest with
        | String b (String c rest2) =>
            if is_space3 a b c then trim_start rest2 else s
        | _ => s
        end
      else s
  | EmptyString => s
  end.

Definition digit (a : ascii) : option Z :=
  let n := Z.of_nat (nat_of_ascii a) in
  if (48 <=? n) && (n <=? 57) then Some (n - 48) else None.

(** The value of the longest prefix of decimal digits, after [acc];
    [seen] tells whether a digit was read already. *)
Fixpoint leading_digits (acc : Z) (seen : bool) (s : string) : option Z :=
  match s with
  | String a rest =>
      match digit a with
      | Some d => leading_digits (10 * acc + d) true rest
      | None => if seen then Some acc else None
      end
  | EmptyString => if seen then Some acc else None
  end.

(** [Number.MAX_SAFE_INTEGER], 2^53 - 1. *)
Definition MAX_SAFE_INTEGER : Z := 9007199254740991.

(** The double nearest to a natural number, ties to the even significand
    of 53 bits; [None] when it is an infinity. *)
Definition to_double (n : Z) : option Z :=
  if n <=? MAX_SAFE_INTEGER then Some n
  else
    let e := Z.log2 n - 52 in
    let q := n / 2 ^ e in
    let r := n mod 2 ^ e in
    let half := 2 ^ (e - 1) in
    let q' := if (half <? r) || ((r =? half) && Z.odd q) then q + 1 else q in
    if q' * 2 ^ e <? 2 ^ 1024 then Some (q' * 2 ^ e) else None.

(** [parseInt(str, 10)].  From the twenty-first significant digit on
    ECMAScript lets an implementation read a digit as zero; this is the
    result without that licence, which is V8's. *)
Definition parseInt (str : string) : Num :=
  let inputString := trim_start str in
  let '(sign, digits) :=
    match inputString with
    | String "-" rest => (-1, rest)
    | String "+" rest => (1, rest)
    | _ => (1, inputString)
    end in
  match leading_digits 0 false digits with
  | Some mathInt =>
      match to_double mathInt with
      | Some number => Int (sign * number)
      | None => Infinity (sign <? 0)
      end
  | None => NaN
  end.

(** [s.split(sep)] for a separator of one character. *)
Fixpoint split (sep : ascii) (s : string) : list string :=
  match s with
  | EmptyString => [""]
  | String a rest =>
      if Ascii.eqb a sep then "" :: split sep rest
      else match split sep rest with
           | h :: t => String a h :: t
           | [] => [String a ""]
           end
  end.

(** [String(v)] as [join] uses it.  A safe integer is written with its
    decimal digits.  Beyond, Number::toString writes the fewest digits
    that read back as the same double, in exponent notation from 10^21
    on, and ECMAScript leaves the last of them open: [big]. *)
Definition show (big : Z -> string) (v : Num) : string :=
  match v with
  | Int n => if Z.abs n <=? MAX_SAFE_INTEGER then String_of n else big n
  | NaN => "NaN"
  | Infinity negative => if negative then "-Infinity" else "Infinity"
  | Null => ""
  end.

(** [xs.join(sep)]. *)
Fixpoint join (big : Z -> string) (sep : string) (xs : list Num) : string :=
  match xs with
  | [] => ""
  | [x] => show big x
  | x :: rest => show big x +:+ sep +:+ join big sep rest
  end.

End JS.


(** ** src/core/linter-rules/local-refs-exist.js *)

Module LocalRefs.
Import URI.

Definition ruleName : string := "local-refs-exist".
Definition name : string := "core/linter-rules/local-refs-exist".

(** [localizationStrings.en]. *)
Definition l10n_msg : string := "Broken local reference found in document.".
Definition l10n_hint : string := "Please fix the links mentioned.".

(** [conf.lint]: absent, a boolean, or an object from rule names to
    settings, of which the rule reads the truthiness only. *)
Inductive Lint :=
| LintAbsent
| LintBoolean (b : bool)
| LintRules (rules : gmap string bool).

(** [conf.lint?.[ruleName]] as a condition. *)
Definition enabled (lint : Lint) : bool :=
  match lint with
  | LintRules rules =>
      match rules !! ruleName with Some setting => setting | None => false end
  | _ => false
  end.

(** What the rule reads of an [a[href]] element. *)
Record Anchor := mkAnchor {
  hash : DOMString;          (* empty, or "#" and the fragment *)
  origin : string;
  pathname : string
}.

(** What the rule reads of the document. *)
Record Document := mkDocument {
  base_origin : string;      (* new URL(document.baseURI).origin *)
  base_pathname : string;
  ids : list DOMString;      (* the IDs of its elements *)
  names : list DOMString;    (* the name attributes of its elements *)
  anchors : list Anchor      (* querySelectorAll("a[href]") *)
}.

(** [s.substring(1)]. *)
Definition substring1 (s : DOMString) : DOMString :=
  match s with [] => [] | _ :: rest => rest end.

(** The links whose fragment the rule looks up: those with a fragment that
    are not same-origin links to another path (lines 43-49). *)
Definition looked_up (doc : Document) (elem : Anchor) : bool :=
  match hash elem with
  | [] => false
  | _ =>
      negb (String.eqb (origin elem) (base_origin doc)
            && negb (String.eqb (pathname elem) (base_pathname doc)))
  end.

(** [isBrokenHyperlink(elem, baseURI)]; [None] is the URIError of
    [decodeURIComponent]. *)
Definition isBrokenHyperlink (doc : Document) (elem : Anchor) : option bool :=
  match hash elem with
  | [] => Some false
  | _ =>
      if String.eqb (origin elem) (base_origin doc)
         && negb (String.eqb (pathname elem) (base_pathname doc))
      then Some false
      else
        match decodeURIComponent (substring1 (hash elem)) with
        | None => None
        | Some id =>
            Some (negb (bool_decide (id ∈ ids doc))
                  && negb (bool_decide (id ∈ names doc)))
        end
  end.

(** [xs.filter(f)] for a callback that may throw. *)
Fixpoint filter_throwing {A} (f : A -> option bool) (xs : list A)
  : option (list A) :=
  match xs with
  | [] => Some []
  | x :: rest =>
      match f x with
      | None => None
      | Some keep =>
          match filter_throwing f rest with
          | None => None
          | Some kept => Some (if keep then x :: kept else kept)
          end
      end
  end.

(** The arguments of [showWarning]. *)
Record Warning := mkWarning {
  message : string;
  rule : string;
  hint : string;
  elements : list Anchor
}.

(** How [run] ends: it returns, having shown a warning or not, or the
    URIError of a fragment escapes it. *)
Inductive Result := Returned (shown : option Warning) | URIError.

Definition run (lint : Lint) (doc : Document) : Result :=
  if negb (enabled lint) then Returned None
  else
    match filter_throwing (isBrokenHyperlink doc) (anchors doc) with
    | None => URIError
    | Some [] => Returned None
    | Some offendingElements =>
        Returned (Some {| message := l10n_msg; rule := name;
                          hint := l10n_hint;
                          elements := offendingElements |})
    end.

End LocalRefs.

(** ** tools/respecDocWriter.js *)

Module DocWriter.
Import URI JS.

(** *** Values, completions, the world *)

(** The [detail] of a diagnostic event: an opaque payload. *)
Definition Detail := string.

(** What a [throw] or a rejection carries: [new Error(message)], or a
    bare string (line 210 rejects with one). *)
Inductive Thrown := JsError (message : string) | JsString (text : string).

(** How an external call ends when awaited. *)
Definition Outcome (A : Type) : Type := A + Thrown.

(** How a piece of the program ends: normally, by a throw (a rejected
    promise), or because [process.exit] ended the process. *)
Inductive Completion (A : Type) :=
| Normal (a : A)
| Throw (e : Thrown)
| Exit (code : Z).
Arguments Normal {A} a.
Arguments Throw {A} e.
Arguments Exit {A} code.

(** The fields of a parsed [URL] that the program reads. *)
Record URL := mkURL {
  href : string;
  origin : string;
  pathname : string;
  search : string
}.

Record Response := mkResponse { ok : bool; status : Z }.

Inductive Callback := onError (detail : Detail) | onWarning (detail : Detail).

(** An event dispatched on the remote document. *)
Record DomEvent := mkDomEvent { ev_type : string; ev_detail : Detail }.

(** The argument of [window.onRespecErrorOrWarning]. *)
Record BridgeMessage := mkBridgeMessage { type : string; detail : Detail }.

(** The awaits during which the page runs with the listeners installed. *)
Inductive Phase :=
| DuringGoto | DuringIsRespec | DuringWaitForFunction | DuringGetVersion
| DuringEvaluateHTML | DuringBeforeWrite | DuringWrite | DuringPageClose.

(** The moments at which the clock matters. *)
Inductive Moment := AtCreateTimer | AtGoto | AtEvaluateHTML.

(** Which of the two settles first in [timeout(promise, ms)]. *)
Inductive Race := TimerFirst | ReadyFirst (settled : Outcome unit).

(** Observable effects, in program order. *)
Inductive Event :=
| EvMkdtemp (pfx : string)
| EvLaunch (userDataDir : string) (args : option (list string))
           (devtools : bool)
| EvNewPage
| EvExposeFunction (name : string)
| EvEvaluateOnNewDocument
| EvGoto (url : string) (timeout : Z)
| EvEvaluate (fn : string)
| EvWaitForFunction
| EvSetTimeout (ms : Z)
| EvConsoleWarn (msg : string)
| EvRequire (module : string)
| EvInvoke (cb : Callback)
| EvBeforeWrite
| EvStdoutWrite (data : DOMString)
| EvWriteFile (path : string) (data : DOMString) (encoding : string)
| EvConsoleError
| EvProcessExit (code : Z)
| EvPageClose
| EvBrowserClose.

(** The contents of a file: octets. *)
Definition Bytes := list Z.

Record World := mkWorld {
  log : list Event;                 (* newest first *)
  fs : gmap string Bytes            (* files by absolute path *)
}.

(** The effects so far, oldest first. *)
Definition events (w : World) : list Event := rev (log w).

Definition M (A : Type) : Type := World -> Completion A * World.

Definition ret {A} (a : A) : M A := fun w => (Normal a, w).

Definition bind {A B} (m : M A) (k : A -> M B) : M B :=
  fun w =>
    match m w with
    | (Normal a, w') => k a w'
    | (Throw e, w') => (Throw e, w')
    | (Exit c, w') => (Exit c, w')
    end.

Notation "'do' x <- m ; k" := (bind m (fun x => k))
  (at level 10, x name, m at level 100, k at level 200).
Notation "m ;; k" := (bind m (fun _ => k))
  (at level 100, k at level 200, right associativity).

Definition throw {A} (e : Thrown) : M A := fun w => (Throw e, w).

Definition emit (e : Event) : M unit :=
  fun w => (Normal tt, {| log := e :: log w; fs := fs w |}).

(** [await] of an external call whose outcome the environment decides. *)
Definition await {A} (o : Outcome A) : M A :=
  match o with
  | inl a => ret a
  | inr e => throw e
  end.

(** [try { m } catch (err) { h err }]. *)
Definition try_catch {A} (m : M A) (h : Thrown -> M A) : M A :=
  fun w =>
    match m w with
    | (Throw e, w') => h e w'
    | r => r
    end.

(** [try { m } finally { f }]: [f] runs after a normal completion and
    after a throw; when it completes normally the completion of [m]
    stands, otherwise its own completion replaces it.  After
    [process.exit] nothing runs. *)
Definition try_finally {A} (m : M A) (f : M unit) : M A :=
  fun w =>
    match m w with
    | (Exit c, w') => (Exit c, w')
    | (r, w') =>
        match f w' with
        | (Normal _, w'') => (r, w'')
        | (Throw e, w'') => (Throw e, w'')
        | (Exit c, w'') => (Exit c, w'')
        end
    end.

(** [process.exit(code)]. *)
Definition process_exit {A} (code : Z) : M A :=
  fun w => (Exit code, {| log := EvProcessExit code :: log w; fs := fs w |}).

(** [writeFile(path, data, "utf-8")] that succeeds: the file holds the
    UTF-8 encoding of the string. *)
Definition store (path : string) (data : DOMString) : M unit :=
  fun w =>
    (Normal tt, {| log := log w; fs := <[path := utf8_encode data]> (fs w) |}).

(** *** The caller's options and the environment *)

Record Options := mkOptions {
  opt_timeout : option Z;
  opt_disableSandbox : option bool;
  opt_debug : option bool;
  (** What the hook does when awaited; [None]: the default [() => {}]. *)
  opt_beforeWrite : option (Outcome unit)
}.

(** Everything outside the program that a run depends on. *)
Record Env := mkEnv {
  env_tmpdir : string;                       (* os.tmpdir() *)
  env_date_now : Moment -> Z;                (* Date.now() *)
  env_mkdtemp : Outcome string;
  env_launch : Outcome unit;
  env_newPage : Outcome unit;
  env_exposeFunction : Outcome unit;
  env_new_URL : string -> Outcome URL;
  env_goto : Outcome (option Response);
  env_emitted : Phase -> list DomEvent;      (* raised in the page *)
  env_page_url : string;                     (* util.inspect(page.url) *)
  env_head_script : bool;                    (* head has a respec script *)
  env_respec_ui : bool;                      (* #respec-ui after 2000 ms *)
  env_waitForFunction : Outcome unit;
  env_getVersion : Outcome unit;             (* page.evaluate(getVersion) *)
  env_respecVersion : string;                (* window.respecVersion *)
  env_race : Race;                           (* respecIsReady vs timer *)
  env_require : string -> Outcome unit;      (* require([module], ...) *)
  env_exportDocument : DOMString;            (* ui/save-html *)
  env_serialized : DOMString;                (* the document, serialized *)
  env_stack : Thrown -> string;              (* err.stack, in the catch *)
  env_big : Z -> string;                     (* String(n) beyond 2^53 *)
  env_colors : bool;                         (* colors are enabled *)
  env_cwd : string;                          (* process.cwd() *)
  env_isAbsolute : string -> bool;           (* path.isAbsolute *)
  env_resolve : string -> string -> string;  (* path.resolve *)
  env_writeFile : string -> Outcome unit;
  env_page_close : Outcome unit;
  env_browser_close : Outcome unit
}.

(** *** colors *)

(** The package colors is not among the sources; [applyStyle] follows its
    function of that name (lib/colors.js, version 1.4.0) for one style. *)

Definition escape_char : ascii := ascii_of_nat 27.
Definition LF : ascii := ascii_of_nat 10.
Definition CR : ascii := ascii_of_nat 13.

Definition ESC : string := String escape_char "".
Definition nl : string := String LF "".

(** [s.replace(pat, rep)] for a global pattern that is a literal, not
    empty: [skip] characters of a match are still to be passed over. *)
Fixpoint replace_from (pat rep : string) (skip : nat) (s : string) : string :=
  match s with
  | EmptyString => EmptyString
  | String a rest =>
      match skip with
      | S k => replace_from pat rep k rest
      | O =>
          if String.prefix pat s
          then rep +:+ replace_from pat rep (String.length pat - 1) rest
          else String a (replace_from pat rep 0 rest)
      end
  end.

Definition replace_all (pat rep s : string) : string :=
  replace_from pat rep 0 s.

Definition is_newline (a : ascii) : bool := Ascii.eqb a LF || Ascii.eqb a CR.

(** [s.replace(/[\r\n]+/g, match => close + match + open)]; [within]: the
    character before was part of a match. *)
Fixpoint reopen (open close : string) (within : bool) (s : string) : string :=
  match s with
  | EmptyString => if within then open else EmptyString
  | String a rest =>
      if is_newline a
      then (if within then "" else close)
             +:+ String a (reopen open close true rest)
      else (if within then open else "")
             +:+ String a (reopen open close false rest)
  end.

Definition applyStyle (enabled : bool) (code : string) (str : string)
  : string :=
  if negb enabled || String.eqb str "" then str
  else
    let open := ESC +:+ "[" +:+ code +:+ "m" in
    let close := ESC +:+ "[39m" in
    let newLinesPresent := has_char LF str in
    let str := open +:+ replace_all close open str +:+ close in
    if newLinesPresent then reopen open close false str else str.

(** The theme of lines 14-19: [debug] is cyan, [warn] is yellow. *)
Definition colors_debug (env : Env) : string -> string :=
  applyStyle (env_colors env) "36".
Definition colors_warn (env : Env) : string -> string :=
  applyStyle (env_colors env) "33".

(** *** The diagnostic bridge (lines 76-86) *)

(** The function exposed as [onRespecErrorOrWarning]. *)
Definition onRespecErrorOrWarning (e : BridgeMessage) : list Callback :=
  if String.eqb (type e) "respecerror" then [onError (detail e)]
  else if String.eqb (type e) "respecwarn" then [onWarning (detail e)]
  else [].

(** The listeners that the script of [evaluateOnNewDocument] adds to the
    document, in the order of the loop. *)
Definition listeners : list (string * (DomEvent -> BridgeMessage)) :=
  List.map
    (fun evName =>
       (evName,
        fun e => {| type := evName; detail := ev_detail e |}))
    ["respecwarn"; "respecerror"].

(** Dispatch of one event: the calls of the exposed function. *)
Definition dispatch (e : DomEvent) : list BridgeMessage :=
  flat_map
    (fun l => if String.eqb (fst l) (ev_type e) then [snd l e] else [])
    listeners.

(** The callbacks run for a sequence of events.  The calls of the exposed
    function reach the controller in the order they were made. *)
Definition bridge (raised : list DomEvent) : list Callback :=
  flat_map onRespecErrorOrWarning (flat_map dispatch raised).

Fixpoint emit_all (es : list Event) : M unit :=
  match es with
  | [] => ret tt
  | e :: rest => emit e ;; emit_all rest
  end.

(** The page runs while the program awaits [m]. *)
Definition during {A} (env : Env) (ph : Phase) (m : M A) : M A :=
  emit_all (List.map EvInvoke (bridge (env_emitted env ph))) ;; m.

(** *** createTimer (lines 222-230) *)

Record Timer := mkTimer { start : Z; duration : Z }.

Definition createTimer (env : Env) (duration : Z) : Timer :=
  {| start := env_date_now env AtCreateTimer; duration := duration |}.

(** The getter [remaining], read when the clock shows [now]. *)
Definition remaining (timer : Timer) (now : Z) : Z :=
  let spent := now - start timer in
  Z.max 0 (duration timer - spent).

(** *** writeTo (lines 28-41) *)

Definition newFilePath (env : Env) (outPath : string) : string :=
  if env_isAbsolute env outPath then outPath
  else env_resolve env (env_cwd env) outPath.

Definition writeTo (env : Env) (outPath : string) (data : DOMString)
  : M unit :=
  let newFilePath := newFilePath env outPath in
  emit (EvWriteFile newFilePath data "utf-8") ;;
  during env DuringWrite
    match env_writeFile env newFilePath with
    | inl _ => store newFilePath data
    | inr err => emit EvConsoleError ;; process_exit 1
    end.

(** *** getVersion (lines 215-220) *)

Definition getVersion (respecVersion : string) : list Num :=
  if String.eqb respecVersion "Developer Edition"
  then [Int 123456789; Int 0; Int 0]
  else List.map parseInt (split "." respecVersion).

(** *** evaluateHTML (lines 177-213), run in the page *)

Definition timeout_message (ms : Z) : string :=
  "Timeout: document.respecIsReady didn't resolve in "
    +:+ String_of ms +:+ "ms.".

(** [timeout(promise, ms)], lines 206-212. *)
Definition timeout (env : Env) (ms : Z) : M unit :=
  let msg := timeout_message ms in
  emit (EvSetTimeout ms) ;;
  match env_race env with
  | TimerFirst => throw (JsString msg)
  | ReadyFirst settled => await settled
  end.

Inductive Path := Legacy | Modern.

(** The test of line 181. *)
Definition select (version : list Num) : Path :=
  let major := version !! 0%nat in
  let minor := version !! 1%nat in
  if lt major 20 || (strict_eq major 20 && lt minor 10)
  then Legacy else Modern.

Definition old_version_warning (respecVersion : string) : string :=
  "👴🏽  Ye Olde ReSpec version detected! Please update to 20.10.0 or above. "
    +:+ "Your version: " +:+ respecVersion +:+ ".".

(** [require([module], resolve, err => reject(new Error(err.message)))]. *)
Definition require (env : Env) (module : string) : M unit :=
  emit (EvRequire module) ;; await (env_require env module).

Definition evaluateHTML (env : Env) (version : list Num) (ms : Z)
  : M DOMString :=
  timeout env ms ;;
  match select version with
  | Legacy =>
      emit (EvConsoleWarn (old_version_warning (env_respecVersion env))) ;;
      require env "ui/save-html" ;;
      ret (env_exportDocument env)
  | Modern =>
      require env "core/exporter" ;;
      match rsDocToDataURL "text/html" (env_serialized env) with
      | None => throw (JsError "URI malformed")
      | Some dataURL =>
          match decodeDataURL dataURL with
          | None => throw (JsError "URI malformed")
          | Some html => ret html
          end
      end
  end.

(** *** isRespec and checkIfReSpec (lines 143-171) *)

Definition isRespec (env : Env) : M bool :=
  if env_head_script env then ret true
  else emit (EvSetTimeout 2000) ;; ret (env_respec_ui env).

Definition not_respec_message (env : Env) : string :=
  colors_warn env
    "🕵️‍♀️  That doesn't seem to be a ReSpec document. Please check manually:"
    +:+ " " +:+ colors_debug env (env_page_url env).

Definition checkIfReSpec (env : Env) : M bool :=
  do isRespecDoc <-
    (emit (EvEvaluate "isRespec") ;; during env DuringIsRespec (isRespec env));
  if negb isRespecDoc then throw (JsError (not_respec_message env))
  else ret isRespecDoc.

(** *** generateHTML (lines 123-138) *)

(** [err] as a condition: an object is truthy, a string unless empty. *)
Definition truthy (err : Thrown) : bool :=
  match err with
  | JsError _ => true
  | JsString text => negb (String.eqb text "")
  end.

(** The text that line 129 gives to [colors.debug]. *)
Definition generate_error_details (env : Env) (url : URL)
    (version : list Num) (err : Thrown) : string :=
  "Specification: " +:+ href url +:+ nl
    +:+ "ReSpec version: " +:+ join (env_big env) "." version +:+ nl
    +:+ "File a bug: https://github.com/w3c/respec/" +:+ nl
    +:+ (if truthy err then "Error: " +:+ env_stack env err +:+ nl else "").

Definition generate_error_message (env : Env) (url : URL)
    (version : list Num) (err : Thrown) : string :=
  nl +:+ "😭  Sorry, there was an error generating the HTML. Please report this issue!"
     +:+ nl
     +:+ colors_debug env (generate_error_details env url version err).

Definition generateHTML (env : Env) (url : URL) (timer : Timer)
  : M DOMString :=
  emit EvWaitForFunction ;;
  during env DuringWaitForFunction (await (env_waitForFunction env)) ;;
  emit (EvEvaluate "getVersion") ;;
  do version <-
    during env DuringGetVersion
      (await (env_getVersion env) ;;
       ret (List.map by_value (getVersion (env_respecVersion env))));
  try_catch
    (emit (EvEvaluate "evaluateHTML") ;;
     during env DuringEvaluateHTML
       (evaluateHTML env version
          (remaining timer (env_date_now env AtEvaluateHTML))))
    (fun err => throw (JsError (generate_error_message env url version err))).

(** *** fetchAndWrite (lines 56-116) *)

Definition http_error_message (env : Env) (url : URL) (status : Z)
  : string :=
  let warn := colors_warn env ("📡 HTTP Error " +:+ String_of status +:+ ":") in
  let debugURL := origin url +:+ pathname url in
  warn +:+ " " +:+ colors_debug env debugURL.

(** The [try] block up to the markup, lines 75-100. *)
Definition render (env : Env) (src : string) (timeout : Z) (timer : Timer)
  : M DOMString :=
  emit EvNewPage ;; await (env_newPage env) ;;
  emit (EvExposeFunction "onRespecErrorOrWarning") ;;
  await (env_exposeFunction env) ;;
  emit EvEvaluateOnNewDocument ;;
  do url <- await (env_new_URL env src);
  emit (EvGoto (href url) timeout) ;;
  do response <- during env DuringGoto (await (env_goto env));
  do response <-
    match response with
    | None => throw (JsError "Cannot read properties of null")
    | Some response => ret response
    end;
  (if negb (ok response) && negb (status response =? 0)
   then throw (JsError (http_error_message env url (status response)))
   else ret tt) ;;
  checkIfReSpec env ;;
  generateHTML env url timer.

(** The rest of the [try] block, lines 101-112. *)
Definition deliver (env : Env) (out : option string)
    (beforeWrite : Outcome unit) (html : DOMString) : M DOMString :=
  emit EvBeforeWrite ;;
  during env DuringBeforeWrite (await beforeWrite) ;;
  match out with
  | None => emit (EvStdoutWrite html)
  | Some "" => ret tt
  | Some out => writeTo env out html
  end ;;
  emit EvPageClose ;;
  during env DuringPageClose (await (env_page_close env)) ;;
  ret html.

(** The [try] block, lines 75-112. *)
Definition pipeline (env : Env) (src : string) (out : option string)
    (timeout : Z) (beforeWrite : Outcome unit) (timer : Timer)
  : M DOMString :=
  do html <- render env src timeout timer;
  deliver env out beforeWrite html.

Definition default {A} (d : A) (o : option A) : A :=
  match o with Some a => a | None => d end.

Definition fetchAndWrite (env : Env) (src : string) (out : option string)
    (options : Options) : M DOMString :=
  let timeout := default 300000 (opt_timeout options) in
  let disableSandbox := default false (opt_disableSandbox options) in
  let debug := default false (opt_debug options) in
  let beforeWrite := default (inl tt) (opt_beforeWrite options) in
  let timer := createTimer env timeout in
  let pfx := env_tmpdir env +:+ "/respec2html-" in
  do userDataDir <- (emit (EvMkdtemp pfx) ;; await (env_mkdtemp env));
  let args := if disableSandbox then Some ["--no-sandbox"] else None in
  emit (EvLaunch userDataDir args debug) ;; await (env_launch env) ;;
  try_finally
    (pipeline env src out timeout beforeWrite timer)
    (emit EvBrowserClose ;; await (env_browser_close env)).

(** The same run cut at the [try]: acquiring the session (lines 67-73),
    the guarded block, and the release of line 114. *)
Definition acquire (env : Env) (options : Options) : M unit :=
  let disableSandbox := default false (opt_disableSandbox options) in
  let debug := default false (opt_debug options) in
  let pfx := env_tmpdir env +:+ "/respec2html-" in
  do userDataDir <- (emit (EvMkdtemp pfx) ;; await (env_mkdtemp env));
  let args := if disableSandbox then Some ["--no-sandbox"] else None in
  emit (EvLaunch userDataDir args debug) ;; await (env_launch env).

Definition body (env : Env) (src : string) (out : option string)
    (options : Options) : M DOMString :=
  let timeout := default 300000 (opt_timeout options) in
  pipeline env src out timeout
    (default (inl tt) (opt_beforeWrite options)) (createTimer env timeout).

Definition release (env : Env) : M unit :=
  emit EvBrowserClose ;; await (env_browser_close env).

(** The session is acquired: the profile directory is made and the
    browser is launched. *)
Definition acquired (env : Env) : Prop :=
  (exists dir, env_mkdtemp env = inl dir) /\ env_launch env = inl tt.

(** A run from a world in which nothing has happened yet. *)
Definition initial (files : gmap string Bytes) : World :=
  {| log := []; fs := files |}.

(** *** Version triples and diagnostic kinds *)

(** (major, minor, patch). *)
Definition Version : Type := N * N * N.

Definition lex_lt (v v' : Version) : Prop :=
  let '(a, b, c) := v in
  let '(a', b', c') := v' in
  (a < a' \/ (a = a' /\ (b < b' \/ (b = b' /\ c < c'))))%N.

Definition lex_le (v v' : Version) : Prop := lex_lt v v' \/ v = v'.

(** The array that [getVersion] returns for a version triple. *)
Definition detected (v : Version) : list Num :=
  let '(a, b, c) := v in [Int (Z.of_N a); Int (Z.of_N b); Int (Z.of_N c)].

(** What [evaluateHTML] does after the wait, by path. *)
Definition extraction_events (env : Env) (p : Path) : list Event :=
  match p with
  | Legacy =>
      [EvConsoleWarn (old_version_warning (env_respecVersion env));
       EvRequire "ui/save-html"]
  | Modern => [EvRequire "core/exporter"]
  end.

Inductive Kind := KindError | KindWarning.

(** The name of the DOM event that carries a diagnostic of a kind. *)
Definition event_name (k : Kind) : string :=
  match k with KindError => "respecerror" | KindWarning => "respecwarn" end.

Definition raise (d : Kind * Detail) : DomEvent :=
  {| ev_type := event_name (fst d); ev_detail := snd d |}.

Definition callback_for (d : Kind * Detail) : Callback :=
  match fst d with
  | KindError => onError (snd d)
  | KindWarning => onWarning (snd d)
  end.

(** *** Statements about whole runs *)

Definition is_close (e : Event) : bool :=
  match e with EvBrowserClose => true | _ => false end.

(** How often the session was released. *)
Definition count_close (es : list Event) : nat :=
  List.length (List.filter is_close es).

(** The state after line 114 has called [browser.close()]. *)
Definition released (w : World) : World :=
  {| log := EvBrowserClose :: log w; fs := fs w |}.

(** The run gets as far as a navigation response. *)
Definition navigated (env : Env) (src : string) (url : URL)
    (response : Response) : Prop :=
  env_newPage env = inl tt /\ env_exposeFunction env = inl tt
  /\ env_new_URL env src = inl url
  /\ env_goto env = inl (Some response).

(** Text without an escape character, a line feed or a carriage return:
    [applyStyle] wraps it as a whole. *)
Definition plain (s : string) : bool :=
  negb (has_char escape_char s || has_char LF s || has_char CR s).

(** What the URL Standard gives for the parts of a URL: no question mark
    and no control character in the origin or the path (the parser
    percent-encodes them), and a query that is empty or starts with a
    question mark. *)
Definition url_standard (url : URL) : Prop :=
  has_char "?" (origin url) = false
  /\ has_char "?" (pathname url) = false
  /\ (search url = "" \/ exists query, search url = "?" +:+ query)
  /\ plain (origin url +:+ pathname url) = true.


(** A response that is not let through makes [fetchAndWrite] reject with
    the transport error. *)
Definition transport_error_reported (env : Env) (src : string)
    (out : option string) (options : Options) (files : gmap string Bytes)
  : Prop :=
  forall url response,
    navigated env src url response ->
    ok response = false -> status response <> 0 ->
    fst (fetchAndWrite env src out options (initial files))
    = Throw (JsError (http_error_message env url (status response))).

(** The session is released exactly once. *)
Definition released_once (env : Env) (src : string) (out : option string)
    (options : Options) (files : gmap string Bytes) : Prop :=
  count_close
    (events (snd (fetchAndWrite env src out options (initial files))))
  = 1%nat.

(** A failing release leaves the outcome of the guarded block in place. *)
Definition release_failure_contained (env : Env) (src : string)
    (out : option string) (options : Options)
    (files : gmap string Bytes) : Prop :=
  forall w1 e,
    acquire env options (initial files) = (Normal tt, w1) ->
    env_browser_close env = inr e ->
    fst (fetchAndWrite env src out options (initial files))
    = fst (body env src out options w1).

(** Navigation is bounded by what is left of the budget when it begins. *)
Definition navigation_bounded_by_remaining (env : Env) (src : string)
    (out : option string) (options : Options)
    (files : gmap string Bytes) : Prop :=
  forall url bound,
    In (EvGoto url bound)
       (events (snd (fetchAndWrite env src out options (initial files)))) ->
    bound = remaining (createTimer env (default 300000 (opt_timeout options)))
                      (env_date_now env AtGoto).


(** The file that a run has written when it fulfils its promise reads
    back as the markup it returns. *)
Definition file_identical_to_result (env : Env) (src : string)
    (path : string) (options : Options) (files : gmap string Bytes) : Prop :=
  forall html w,
    fetchAndWrite env src (Some path) options (initial files)
    = (Normal html, w) ->
    exists content,
      fs w !! newFilePath env path = Some content
      /\ utf8_decode content = Some html.

(** The callback, if any, that an event dispatched on the document runs. *)
Definition callback_of (e : DomEvent) : option Callback :=
  if String.eqb (ev_type e) "respecerror" then Some (onError (ev_detail e))
  else if String.eqb (ev_type e) "respecwarn"
       then Some (onWarning (ev_detail e))
       else None.

(** The call of a caller's callback that an effect is, if it is one. *)
Definition invoked (e : Event) : option Callback :=
  match e with EvInvoke cb => Some cb | _ => None end.

(** The await that a call begins, for the calls that the program awaits
    while the page runs with the listeners installed. *)
Definition awaited (e : Event) : option Phase :=
  match e with
  | EvGoto _ _ => Some DuringGoto
  | EvEvaluate fn =>
      if String.eqb fn "isRespec" then Some DuringIsRespec
      else if String.eqb fn "getVersion" then Some DuringGetVersion
      else if String.eqb fn "evaluateHTML" then Some DuringEvaluateHTML
      else None
  | EvWaitForFunction => Some DuringWaitForFunction
  | EvBeforeWrite => Some DuringBeforeWrite
  | EvWriteFile _ _ _ => Some DuringWrite
  | EvPageClose => Some DuringPageClose
  | _ => None
  end.

(** The callbacks due for the events that the page raises during the
    await that [e] begins. *)
Definition due (env : Env) (e : Event) : list Callback :=
  match awaited e with
  | Some ph => omap callback_of (env_emitted env ph)
  | None => []
  end.

(** [w'] continues [w], and the callbacks run in between are those due
    for the awaits begun in between, in order. *)
Definition delivers (env : Env) (w w' : World) : Prop :=
  exists new,
    log w' = new ++ log w
    /\ omap invoked (rev new) = flat_map (due env) (rev new).

(** *** What a computation leaves alone *)

(** Every state that [m] reaches is related to the one it started in. *)
Definition preserves {A} (R : World -> World -> Prop) (m : M A) : Prop :=
  forall w, R w (snd (m w)).

(** [m] never ends the process. *)
Definition exit_free {A} (m : M A) : Prop :=
  forall w c, fst (m w) <> Exit c.

(** [w'] continues [w] with events that satisfy [P]. *)
Definition extends (P : Event -> Prop) (w w' : World) : Prop :=
  exists new, log w' = new ++ log w /\ Forall P new.

Definition same_files (w w' : World) : Prop := fs w' = fs w.

(** The events of [render], of which a navigation is bounded by
    [timeout]. *)
Definition render_event (timeout : Z) (e : Event) : Prop :=
  match e with
  | EvNewPage | EvExposeFunction _ | EvEvaluateOnNewDocument
  | EvInvoke _ | EvEvaluate _ | EvWaitForFunction | EvSetTimeout _
  | EvConsoleWarn _ | EvRequire _ => True
  | EvGoto _ bound => bound = timeout
  | _ => False
  end.

(** Any event, of which a navigation is bounded by [timeout]. *)
Definition goto_bounded (timeout : Z) (e : Event) : Prop :=
  match e with
  | EvGoto _ bound => bound = timeout
  | _ => True
  end.

(** The events of [deliver]. *)
Definition deliver_event (e : Event) : Prop :=
  match e with
  | EvInvoke _ | EvBeforeWrite | EvStdoutWrite _ | EvWriteFile _ _ _
  | EvConsoleError | EvProcessExit _ | EvPageClose => True
  | _ => False
  end.

Definition is_output (e : Event) : bool :=
  match e with
  | EvStdoutWrite _ | EvWriteFile _ _ _ => true
  | _ => false
  end.

(** What was written, and where, oldest first. *)
Definition outputs (w : World) : list Event :=
  List.filter is_output (events w).

(** The same of a log, which has the newest event first. *)
Definition outs (l : list Event) : list Event :=
  List.filter is_output (rev l).


(** *** Further statements about runs *)

(** The test of lines 89-92, negated: the response is let through. *)
Definition accepted (response : Response) : bool :=
  ok response || (status response =? 0).

(** A version of safe integers, which a double holds exactly. *)
Definition safe (v : Version) : Prop :=
  let '(a, b, c) := v in
  Z.of_N a <= MAX_SAFE_INTEGER /\ Z.of_N b <= MAX_SAFE_INTEGER
  /\ Z.of_N c <= MAX_SAFE_INTEGER.

(** The version string of a release: "major.minor.patch". *)
Definition dotted (v : Version) : string :=
  let '(a, b, c) := v in
  String_of (Z.of_N a) +:+ "." +:+ String_of (Z.of_N b) +:+ "."
    +:+ String_of (Z.of_N c).

(** In a log (newest first): the function is exposed and the listener
    script is registered. *)
Definition installed (l : list Event) : Prop :=
  In (EvExposeFunction "onRespecErrorOrWarning") l
  /\ In EvEvaluateOnNewDocument l.

(** In a log (newest first): every navigation comes after both. *)
Definition bridge_first (l : list Event) : Prop :=
  forall later url bound earlier,
    l = later ++ EvGoto url bound :: earlier -> installed earlier.

(** The log after the bridge is installed and navigation has begun. *)
Definition log_navigated (env : Env) (url : URL) (timeout : Z) (w : World)
  : list Event :=
  rev (List.map EvInvoke (bridge (env_emitted env DuringGoto)))
    ++ EvGoto (href url) timeout :: EvEvaluateOnNewDocument
    :: EvExposeFunction "onRespecErrorOrWarning" :: EvNewPage :: log w.

(** A step that keeps navigation behind the installation of the bridge. *)
Definition keeps_order (w w' : World) : Prop :=
  bridge_first (log w) -> bridge_first (log w').

Definition is_goto (e : Event) : bool :=
  match e with EvGoto _ _ => true | _ => false end.

End DocWriter.


(** ** Sample runs *)

Module Samples.
Import URI JS DocWriter.

(** <p>café €😀</p>: ASCII, a two-octet and a three-octet character, and
    a surrogate pair. *)
Definition markup : DOMString :=
  units "<p>caf" ++ [233; 32; 8364; 55357; 56832] ++ units "</p>".

Definition dataURL : DOMString :=
  Eval vm_compute in
    match rsDocToDataURL "text/html" markup with
    | Some d => d
    | None => []
    end.

Definition src : string := "https://example.org/spec.html?key=SECRET".

Definition url : URL :=
  {| href := src; origin := "https://example.org";
     pathname := "/spec.html"; search := "?key=SECRET" |}.

Definition clock (m : Moment) : Z :=
  match m with
  | AtCreateTimer => 1000
  | AtGoto => 6000
  | AtEvaluateHTML => 9000
  end.

Definition raised (ph : Phase) : list DomEvent :=
  match ph with
  | DuringGoto =>
      [ {| ev_type := "respecwarn"; ev_detail := "w1" |};
        {| ev_type := "respecerror"; ev_detail := "e1" |} ]
  | DuringEvaluateHTML =>
      [ {| ev_type := "respecwarn"; ev_detail := "w2" |} ]
  | _ => []
  end.

(** An environment in which every step succeeds, but for the parts that
    the arguments set. *)
Definition env (goto : Outcome (option Response)) (respecVersion : string)
    (race : Race) (writeFile : Outcome unit) (close : Outcome unit) : Env :=
  {| env_tmpdir := "/tmp";
     env_date_now := clock;
     env_mkdtemp := inl "/tmp/respec2html-Xa3f9Q";
     env_launch := inl tt;
     env_newPage := inl tt;
     env_exposeFunction := inl tt;
     env_new_URL := fun s =>
       if String.eqb s src then inl url else inr (JsError "Invalid URL");
     env_goto := goto;
     env_emitted := raised;
     env_page_url := "[Function: url]";
     env_head_script := true;
     env_respec_ui := true;
     env_waitForFunction := inl tt;
     env_getVersion := inl tt;
     env_respecVersion := respecVersion;
     env_race := race;
     env_require := fun _ => inl tt;
     env_exportDocument := markup;
     env_serialized := markup;
     env_stack := fun e =>
       match e with JsError m => "Error: " +:+ m | JsString t => t end;
     env_big := String_of;
     env_colors := true;
     env_cwd := "/home/user";
     env_isAbsolute := fun p => String.prefix "/" p;
     env_resolve := fun cwd p => cwd +:+ "/" +:+ p;
     env_writeFile := fun _ => writeFile;
     env_page_close := inl tt;
     env_browser_close := close |}.

Definition ok200 : Outcome (option Response) :=
  inl (Some {| ok := true; status := 200 |}).
Definition not_found : Outcome (option Response) :=
  inl (Some {| ok := false; status := 404 |}).

Definition ready : Race := ReadyFirst (inl tt).

Definition no_options : Options :=
  {| opt_timeout := None; opt_disableSandbox := None; opt_debug := None;
     opt_beforeWrite := None |}.

(** Every step succeeds. *)
Definition env_success : Env := env ok200 "25.1.0" ready (inl tt) (inl tt).

(** Every step succeeds, then [browser.close()] rejects. *)
Definition close_error : Thrown := JsError "Protocol error: Target closed.".
Definition env_close_fails : Env :=
  env ok200 "25.1.0" ready (inl tt) (inr close_error).

(** Writing the output file fails. *)
Definition env_write_fails : Env :=
  env ok200 "25.1.0" ready (inr (JsError "EACCES: permission denied"))
      (inl tt).

(** The server answers 404. *)
Definition env_not_found : Env :=
  env not_found "25.1.0" ready (inl tt) (inl tt).

(** The server answers 404, and [browser.close()] rejects. *)
Definition env_not_found_close_fails : Env :=
  env not_found "25.1.0" ready (inl tt) (inr close_error).

(** The document never becomes ready. *)
Definition env_never_ready : Env :=
  env ok200 "25.1.0" TimerFirst (inl tt) (inl tt).

(** The successful run after the session is acquired, and after the
    markup is extracted. *)
Definition world_acquired : World :=
  Eval vm_compute in snd (acquire env_success no_options (initial ∅)).

Definition world_rendered : World :=
  Eval vm_compute in
    snd (render env_success src 300000 (createTimer env_success 300000)
           world_acquired).

(** How ids are given in these runs: the element keeps an id it has. *)
Definition addId (id pfx txt : string) : string :=
  if String.eqb id "" then pfx +:+ "-" +:+ txt else id.

Definition examples : list Examples.Element :=
  [ Examples.mkElement Examples.aside false "Intro" "" "<p>text</p>" false;
    Examples.mkElement Examples.pre false "" "" "nested" true;
    Examples.mkElement Examples.pre true "" "bad" "x = 1" false ].

(** An environment changed in how the launch ends, in what the document
    shows of ReSpec, and in how [page.close()] ends. *)
Definition vary (launch : Outcome unit) (head_script respec_ui : bool)
    (page_close : Outcome unit) (e : Env) : Env :=
  {| env_tmpdir := env_tmpdir e;
     env_date_now := env_date_now e;
     env_mkdtemp := env_mkdtemp e;
     env_launch := launch;
     env_newPage := env_newPage e;
     env_exposeFunction := env_exposeFunction e;
     env_new_URL := env_new_URL e;
     env_goto := env_goto e;
     env_emitted := env_emitted e;
     env_page_url := env_page_url e;
     env_head_script := head_script;
     env_respec_ui := respec_ui;
     env_waitForFunction := env_waitForFunction e;
     env_getVersion := env_getVersion e;
     env_respecVersion := env_respecVersion e;
     env_race := env_race e;
     env_require := env_require e;
     env_exportDocument := env_exportDocument e;
     env_serialized := env_serialized e;
     env_stack := env_stack e;
     env_big := env_big e;
     env_colors := env_colors e;
     env_cwd := env_cwd e;
     env_isAbsolute := env_isAbsolute e;
     env_resolve := env_resolve e;
     env_writeFile := env_writeFile e;
     env_page_close := page_close;
     env_browser_close := env_browser_close e |}.

(** The browser does not start. *)
Definition launch_error : Thrown :=
  JsError "Failed to launch the browser process!".
Definition env_no_browser : Env :=
  vary (inr launch_error) true true (inl tt) env_success.

(** The page is not a ReSpec document. *)
Definition env_not_respec : Env :=
  vary (inl tt) false false (inl tt) env_success.

(** A local file: the response has status 0 and is not ok. *)
Definition env_local_file : Env :=
  env (inl (Some {| ok := false; status := 0 |})) "25.1.0" ready (inl tt)
      (inl tt).

(** Everything succeeds up to the write, then [page.close()] rejects. *)
Definition page_close_error : Thrown :=
  JsError "Protocol error: Connection closed.".
Definition env_page_close_fails : Env :=
  vary (inl tt) true true (inr page_close_error) env_success.

(** An environment changed in the version that the document reports and
    in what [exportDocument] returns. *)
Definition exporting (respecVersion : string) (exportDocument : DOMString)
    (e : Env) : Env :=
  {| env_tmpdir := env_tmpdir e;
     env_date_now := env_date_now e;
     env_mkdtemp := env_mkdtemp e;
     env_launch := env_launch e;
     env_newPage := env_newPage e;
     env_exposeFunction := env_exposeFunction e;
     env_new_URL := env_new_URL e;
     env_goto := env_goto e;
     env_emitted := env_emitted e;
     env_page_url := env_page_url e;
     env_head_script := env_head_script e;
     env_respec_ui := env_respec_ui e;
     env_waitForFunction := env_waitForFunction e;
     env_getVersion := env_getVersion e;
     env_respecVersion := respecVersion;
     env_race := env_race e;
     env_require := env_require e;
     env_exportDocument := exportDocument;
     env_serialized := env_serialized e;
     env_stack := env_stack e;
     env_big := env_big e;
     env_colors := env_colors e;
     env_cwd := env_cwd e;
     env_isAbsolute := env_isAbsolute e;
     env_resolve := env_resolve e;
     env_writeFile := env_writeFile e;
     env_page_close := env_page_close e;
     env_browser_close := env_browser_close e |}.

(** <p>, an unpaired lead surrogate, </p>: markup that an old version of
    ReSpec exports from a text node with half of a pair. *)
Definition half_pair : DOMString := units "<p>" ++ [55357] ++ units "</p>".

Definition env_half_pair : Env := exporting "19.0.0" half_pair env_success.

(** The world after the run that writes that markup to out.html. *)
Definition world_half_pair : World :=
  Eval vm_compute in
    snd (fetchAndWrite env_half_pair src (Some "out.html") no_options
           (initial ∅)).

(** A document for the link rule: its ids and names, and its links. *)
Definition cafe : DOMString := units "caf" ++ [233].

Definition link_intro : LocalRefs.Anchor :=
  LocalRefs.mkAnchor (units "#intro") "https://example.org" "/spec.html".
Definition link_cafe : LocalRefs.Anchor :=
  LocalRefs.mkAnchor (units "#caf%C3%A9") "https://example.org" "/spec.html".
Definition link_missing : LocalRefs.Anchor :=
  LocalRefs.mkAnchor (units "#missing") "https://example.org" "/spec.html".
Definition link_other_page : LocalRefs.Anchor :=
  LocalRefs.mkAnchor (units "#nowhere") "https://example.org" "/other.html".
Definition link_elsewhere : LocalRefs.Anchor :=
  LocalRefs.mkAnchor (units "#section-2") "https://www.w3.org" "/TR/dom/".
Definition link_plain : LocalRefs.Anchor :=
  LocalRefs.mkAnchor [] "https://example.org" "/spec.html".
Definition link_malformed : LocalRefs.Anchor :=
  LocalRefs.mkAnchor (units "#100%") "https://example.org" "/spec.html".

Definition document (links : list LocalRefs.Anchor) : LocalRefs.Document :=
  {| LocalRefs.base_origin := "https://example.org";
     LocalRefs.base_pathname := "/spec.html";
     LocalRefs.ids := [units "intro"; cafe];
     LocalRefs.names := [units "top"];
     LocalRefs.anchors := links |}.

Definition links : list LocalRefs.Anchor :=
  [link_intro; link_cafe; link_missing; link_other_page; link_elsewhere;
   link_plain].

Definition lint_on : LocalRefs.Lint :=
  LocalRefs.LintRules {[ "local-refs-exist" := true ]}.

End Samples.

(** * Properties *)

(** ** Text *)

Section TextFacts.

Lemma prefix_append t r : String.prefix t (t +:+ r) = true.
Proof.
  induction t as [|a t IH]; [now destruct r|].
  simpl. destruct (ascii_dec a a); [exact IH | contradiction].
Qed.

Lemma prefix_append_r t s q :
  String.prefix t s = true -> String.prefix t (s +:+ q) = true.
Proof.
  revert s. induction t as [|a t IH]; intros s H.
  - now destruct (s +:+ q).
  - destruct s as [|b s]; [discriminate|]. simpl in *.
    destruct (ascii_dec a b); [now apply IH | discriminate].
Qed.

Lemma includes_of_prefix s t :
  String.prefix t s = true -> includes s t = true.
Proof. intros H. destruct s; cbn [includes]; now rewrite H. Qed.

Lemma includes_prefix t r : includes (t +:+ r) t = true.
Proof. apply includes_of_prefix, prefix_append. Qed.

Lemma includes_refl s : includes s s = true.
Proof.
  apply includes_of_prefix. induction s as [|a s IH]; [reflexivity|].
  simpl. destruct (ascii_dec a a); [exact IH | contradiction].
Qed.

Lemma includes_append_l p s t :
  includes s t = true -> includes (p +:+ s) t = true.
Proof.
  intros H. induction p as [|a p IH]; [exact H|].
  change (String a p +:+ s) with (String a (p +:+ s)).
  cbn [includes]. rewrite IH. apply orb_true_r.
Qed.

Lemma includes_append_r s q t :
  includes s t = true -> includes (s +:+ q) t = true.
Proof.
  induction s as [|a s IH]; intros H.
  - cbn [includes] in H. rewrite orb_false_r in H.
    destruct t; [|discriminate]. now destruct q.
  - change (String a s +:+ q) with (String a (s +:+ q)).
    cbn [includes] in H. apply orb_true_iff in H as [H|H].
    + apply includes_of_prefix.
      exact (prefix_append_r _ (String a s) q H).
    + cbn [includes]. rewrite (IH H). apply orb_true_r.
Qed.

Lemma has_char_append c s t :
  has_char c (s +:+ t) = has_char c s || has_char c t.
Proof.
  induction s as [|a s IH]; [reflexivity|].
  change (String a s +:+ t) with (String a (s +:+ t)).
  cbn [has_char]. now rewrite IH, orb_assoc.
Qed.

Lemma prefix_has_char c t s :
  String.prefix t s = true -> has_char c t = true -> has_char c s = true.
Proof.
  revert s. induction t as [|a t IH]; intros s Hp Hc; [discriminate|].
  destruct s as [|b s]; [discriminate|]. simpl in Hp.
  destruct (ascii_dec a b) as [->|]; [|discriminate].
  cbn [has_char] in *. apply orb_true_iff in Hc as [Hc|Hc].
  - now rewrite Hc.
  - rewrite (IH s Hp Hc). apply orb_true_r.
Qed.

(** A string that includes [t] has every character of [t]. *)
Lemma includes_has_char c s t :
  includes s t = true -> has_char c t = true -> has_char c s = true.
Proof.
  induction s as [|a s IH]; intros Hi Hc; cbn [includes] in Hi.
  - rewrite orb_false_r in Hi. exact (prefix_has_char c t "" Hi Hc).
  - apply orb_true_iff in Hi as [Hi|Hi].
    + exact (prefix_has_char c t _ Hi Hc).
    + cbn [has_char]. rewrite (IH Hi Hc). apply orb_true_r.
Qed.

Lemma pretty_N_char_digit (c : ascii) (d : N) :
  (d < 10)%N -> has_char c "0123456789" = false ->
  Ascii.eqb (pretty_N_char d) c = false.
Proof.
  intros Hd Hc.
  assert (d = 0 \/ d = 1 \/ d = 2 \/ d = 3 \/ d = 4 \/ d = 5 \/ d = 6
          \/ d = 7 \/ d = 8 \/ d = 9)%N as Hcases by lia.
  cbn [has_char] in Hc. repeat (apply orb_false_iff in Hc as [? Hc]).
  repeat (destruct Hcases as [->|Hcases]); try subst d; assumption.
Qed.

Lemma pretty_N_go_has_char (c : ascii) (x : N) :
  has_char c "0123456789" = false ->
  forall s, has_char c s = false -> has_char c (pretty_N_go x s) = false.
Proof.
  intros Hc. induction (N.lt_wf_0 x) as [x _ IH]. intros s Hs.
  destruct (N.eq_dec x 0%N) as [->|Hx]; [now rewrite pretty_N_go_0|].
  rewrite pretty_N_go_step by lia.
  apply IH.
  - apply N.div_lt; lia.
  - cbn [has_char]. rewrite Hs, orb_false_r.
    apply pretty_N_char_digit; [|assumption].
    apply N.mod_lt. lia.
Qed.

(** The decimal form of an integer has digits and a minus sign only. *)
Lemma String_of_has_char (c : ascii) (n : Z) :
  has_char c "-0123456789" = false -> has_char c (String_of n) = false.
Proof.
  intros Hc. cbn [has_char] in Hc. apply orb_false_iff in Hc as [Hm Hc].
  change (has_char c "0123456789" = false) in Hc.
  assert (forall p : positive, has_char c (pretty (Npos p)) = false) as Hp.
  { intros p. unfold pretty, pretty_N.
    destruct (decide (N.pos p = 0%N)); [discriminate|].
    now apply pretty_N_go_has_char. }
  unfold String_of, pretty, pretty_Z. destruct n as [|p|p].
  - cbn [has_char] in *. apply orb_false_iff in Hc as [-> _]. reflexivity.
  - apply Hp.
  - rewrite has_char_append. cbn [has_char]. rewrite Hm. cbn [orb].
    apply Hp.
Qed.

Lemma append_assoc (a b c : string) : (a +:+ b) +:+ c = a +:+ (b +:+ c).
Proof.
  induction a as [|x a IH]; [reflexivity|].
  change (String x ((a +:+ b) +:+ c) = String x (a +:+ (b +:+ c))).
  now rewrite IH.
Qed.

End TextFacts.

(** ** src/core/examples.js *)

Section ExamplesFacts.
Import Examples.
Variable l10n_example : string.
Variable addId : string -> string -> string -> string.

Lemma step_counter number example :
  fst (step l10n_example addId number example)
  = if increments example then number + 1 else number.
Proof.
  unfold step, increments.
  destruct (localName example); [reflexivity|].
  destruct (closest_aside example); reflexivity.
Qed.

Lemma step_incrementing number example :
  0 <= number ->
  increments example = true ->
  exists r,
    pub (snd (step l10n_example addId number example)) = Some r
    /\ Examples.number r = number
    /\ bdi (marker (snd (step l10n_example addId number example)))
       = " " +:+ String_of (number + 1).
Proof.
  intros Hpos.
  assert (Hlt : (0 <? number + 1) = true) by (apply Z.ltb_lt; lia).
  unfold step, increments, makeTitle.
  destruct (localName example); simpl; intros Hinc.
  - eexists; repeat split. simpl. now rewrite Hlt.
  - apply negb_true_iff in Hinc. rewrite Hinc. simpl.
    eexists; repeat split. simpl. now rewrite Hlt.
Qed.

Lemma forEach_cons number example rest :
  forEach l10n_example addId number (example :: rest)
  = snd (step l10n_example addId number example)
      :: forEach l10n_example addId
           (fst (step l10n_example addId number example)) rest.
Proof.
  cbn [forEach]. now destruct (step l10n_example addId number example).
Qed.

Lemma counter_after_cons number example rest :
  counter_after (if increments example then number + 1 else number) rest
  = counter_after number (example :: rest).
Proof.
  unfold counter_after. cbn [List.filter].
  destruct (increments example); cbn [List.length]; lia.
Qed.

Lemma counter_after_nonneg number examples :
  0 <= number -> 0 <= counter_after number examples.
Proof. unfold counter_after. lia. Qed.

(** The callback at position [i] sees the counter that the elements
    before it have left. *)
Lemma forEach_lookup examples :
  forall number (i : nat) example,
    0 <= number ->
    examples !! i = Some example ->
    increments example = true ->
    exists p report,
      forEach l10n_example addId number examples !! i = Some p
      /\ pub p = Some report
      /\ Examples.number report = counter_after number (take i examples)
      /\ bdi (marker p) = " " +:+ String_of (Examples.number report + 1).
Proof.
  induction examples as [|e rest IH]; intros number i example Hpos Hi Hinc.
  - destruct i; discriminate Hi.
  - rewrite forEach_cons. destruct i as [|i]; simpl in Hi.
    + injection Hi as ->.
      destruct (step_incrementing number example Hpos Hinc)
        as (r & Hpub & Hnum & Hbdi).
      exists (snd (step l10n_example addId number example)), r.
      repeat split; try assumption.
      * rewrite Hnum. unfold counter_after. simpl. lia.
      * now rewrite Hnum.
    + rewrite step_counter.
      destruct (IH (if increments e then number + 1 else number)
                   i example) as (p & r & Hp & Hpub & Hnum & Hbdi);
        try assumption.
      { destruct (increments e); lia. }
      exists p, r. repeat split; try assumption.
      rewrite Hnum. cbn [take]. apply counter_after_cons.
Qed.

(** C10.  Every example element for which [run] increments the counter
    (an aside, or a pre that is not inside an aside) is published on the
    "example" topic with a report whose [number] is one less than the
    number shown in the element's marker: the report holds the counter
    as it was before the increment, which is the number of counted
    examples that precede the element. *)
Theorem report_number_is_marker_number_minus_one
    (examples : list Element) (i : nat) (example : Element) :
  examples !! i = Some example ->
  increments example = true ->
  exists p report n,
    run l10n_example addId examples !! i = Some p
    /\ pub p = Some report
    /\ bdi (marker p) = " " +:+ String_of n
    /\ Examples.number report = n - 1
    /\ Examples.number report = counter_after 0 (take i examples).
Proof.
  intros Hi Hinc.
  destruct (forEach_lookup examples 0 i example) as (p & r & Hp & Hpub & Hn & Hb);
    [lia | assumption | assumption |].
  exists p, r, (Examples.number r + 1).
  repeat split; try assumption. lia.
Qed.

End ExamplesFacts.

(** ** The URI builtins: decoding undoes encoding *)

Section URIFacts.
Import URI.

Local Arguments Z.mul : simpl never.
Local Arguments Z.add : simpl never.
Local Arguments Z.sub : simpl never.
Local Arguments Z.div : simpl never.
Local Arguments Z.modulo : simpl never.
Local Arguments Z.ltb : simpl never.
Local Arguments Z.leb : simpl never.

Ltac bool_arith :=
  unfold between in * |-;
  repeat match goal with
    | H : _ && _ = true |- _ => apply andb_true_iff in H; destruct H
    | H : _ || _ = false |- _ => apply orb_false_iff in H; destruct H
    | H : negb _ = true |- _ => apply negb_true_iff in H
    | H : (_ <? _) = true |- _ => apply Z.ltb_lt in H
    | H : (_ <? _) = false |- _ => apply Z.ltb_ge in H
    | H : (_ <=? _) = true |- _ => apply Z.leb_le in H
    | H : (_ <=? _) = false |- _ => apply Z.leb_gt in H
    | H : (_ =? _) = true |- _ => apply Z.eqb_eq in H
    | H : (_ =? _) = false |- _ => apply Z.eqb_neq in H
    end.

Lemma between_true lo hi c : lo <= c <= hi -> between lo hi c = true.
Proof.
  intros [H1 H2]. unfold between.
  apply andb_true_iff; split; apply Z.leb_le; assumption.
Qed.

Lemma between_false lo hi c : c < lo \/ hi < c -> between lo hi c = false.
Proof.
  intros H. unfold between. apply andb_false_iff.
  destruct H; [left | right]; apply Z.leb_gt; assumption.
Qed.

Lemma hexval_hexdigit n : 0 <= n < 16 -> hexval (hexdigit n) = Some n.
Proof.
  intros Hn. unfold hexval, hexdigit.
  destruct (n <? 10) eqn:E; bool_arith.
  - rewrite between_true by lia. f_equal. lia.
  - rewrite between_false by lia. rewrite between_true by lia.
    f_equal. lia.
Qed.

Lemma ParseHexOctet_percent b :
  0 <= b < 256 ->
  ParseHexOctet (hexdigit (b / 16)) (hexdigit (b mod 16)) = Some b.
Proof.
  intros Hb. unfold ParseHexOctet.
  rewrite !hexval_hexdigit by (Z.div_mod_to_equations; lia).
  f_equal. Z.div_mod_to_equations; lia.
Qed.

Lemma decode_plain c t :
  c <> 37 ->
  decodeURIComponent (c :: t) = lift_cons [c] (decodeURIComponent t).
Proof.
  intros Hc. cbn [decodeURIComponent].
  apply Z.eqb_neq in Hc. rewrite Hc. reflexivity.
Qed.

Lemma escaped_percent b t :
  0 <= b < 256 ->
  exists h l, percent b ++ t = 37 :: h :: l :: t
              /\ ParseHexOctet h l = Some b /\ escaped 37 h l = Some b.
Proof.
  intros Hb. exists (hexdigit (b / 16)), (hexdigit (b mod 16)).
  unfold escaped. rewrite ParseHexOctet_percent by assumption.
  repeat split.
Qed.

Lemma decode_escape1 cp t :
  0 <= cp < 128 ->
  decodeURIComponent (escape cp ++ t)
  = lift_cons [cp] (decodeURIComponent t).
Proof.
  intros Hcp. unfold escape, utf8.
  replace (cp <? 128) with true by (symmetry; apply Z.ltb_lt; lia).
  cbn [flat_map]. rewrite app_nil_r.
  destruct (escaped_percent cp t) as (h & l & -> & HB & _); [lia|].
  cbn [decodeURIComponent]. change (negb (37 =? 37)) with false. cbv iota.
  rewrite HB.
  replace (cp <? 128) with true by (symmetry; apply Z.ltb_lt; lia).
  reflexivity.
Qed.

Ltac ltb_true := rewrite (proj2 (Z.ltb_lt _ _)) by lia.
Ltac ltb_false := rewrite (proj2 (Z.ltb_ge _ _)) by lia.

Lemma decode2_utf8 cp :
  128 <= cp < 2048 ->
  decode2 (192 + cp / 64) (128 + cp mod 64) = Some cp.
Proof.
  intros Hcp. unfold decode2, continuation.
  rewrite between_true by (Z.div_mod_to_equations; lia).
  replace ((192 + cp / 64 - 192) * 64 + (128 + cp mod 64 - 128)) with cp
    by (Z.div_mod_to_equations; lia).
  rewrite (proj2 (Z.leb_le _ _)) by lia. reflexivity.
Qed.

Lemma decode3_utf8 cp :
  2048 <= cp < 65536 -> between 55296 57343 cp = false ->
  decode3 (224 + cp / 4096) (128 + (cp / 64) mod 64) (128 + cp mod 64)
  = Some cp.
Proof.
  intros Hcp Hsur. unfold decode3, continuation.
  rewrite !between_true by (Z.div_mod_to_equations; lia).
  replace ((224 + cp / 4096 - 224) * 4096
           + (128 + (cp / 64) mod 64 - 128) * 64
           + (128 + cp mod 64 - 128)) with cp
    by (Z.div_mod_to_equations; lia).
  rewrite Hsur. rewrite (proj2 (Z.leb_le _ _)) by lia. reflexivity.
Qed.

Lemma decode4_utf8 cp :
  65536 <= cp < 1114112 ->
  decode4 (240 + cp / 262144) (128 + (cp / 4096) mod 64)
          (128 + (cp / 64) mod 64) (128 + cp mod 64)
  = Some cp.
Proof.
  intros Hcp. unfold decode4, continuation.
  rewrite !between_true by (Z.div_mod_to_equations; lia).
  replace ((240 + cp / 262144 - 240) * 262144
           + (128 + (cp / 4096) mod 64 - 128) * 4096
           + (128 + (cp / 64) mod 64 - 128) * 64
           + (128 + cp mod 64 - 128)) with cp
    by (Z.div_mod_to_equations; lia).
  rewrite ?between_true by lia. reflexivity.
Qed.

Lemma decode_escape2 cp t :
  128 <= cp < 2048 ->
  decodeURIComponent (escape cp ++ t)
  = lift_cons (UTF16EncodeCodePoint cp) (decodeURIComponent t).
Proof.
  intros Hcp. unfold escape, utf8. ltb_false. ltb_true.
  cbn [flat_map]. rewrite app_nil_r, <- !app_assoc.
  pose proof (decode2_utf8 cp Hcp) as Hd.
  set (b0 := 192 + cp / 64) in *. set (b1 := 128 + cp mod 64) in *.
  assert (192 <= b0 < 224 /\ 128 <= b1 < 192) as [H0 H1]
    by (subst b0 b1; Z.div_mod_to_equations; lia).
  destruct (escaped_percent b1 t) as (h1 & l1 & -> & _ & HB1); [lia|].
  destruct (escaped_percent b0 (37 :: h1 :: l1 :: t))
    as (h0 & l0 & -> & HB0 & _); [lia|].
  cbn [decodeURIComponent]. change (negb (37 =? 37)) with false. cbv iota.
  rewrite HB0. do 2 ltb_false. ltb_true. rewrite HB1, Hd.
  reflexivity.
Qed.

Lemma decode_escape3 cp t :
  2048 <= cp < 65536 -> between 55296 57343 cp = false ->
  decodeURIComponent (escape cp ++ t)
  = lift_cons (UTF16EncodeCodePoint cp) (decodeURIComponent t).
Proof.
  intros Hcp Hsur. unfold escape, utf8. do 2 ltb_false. ltb_true.
  cbn [flat_map]. rewrite app_nil_r, <- !app_assoc.
  pose proof (decode3_utf8 cp Hcp Hsur) as Hd.
  set (b0 := 224 + cp / 4096) in *.
  set (b1 := 128 + (cp / 64) mod 64) in *.
  set (b2 := 128 + cp mod 64) in *.
  assert (224 <= b0 < 240 /\ 128 <= b1 < 192 /\ 128 <= b2 < 192)
    as (H0 & H1 & H2) by (subst b0 b1 b2; Z.div_mod_to_equations; lia).
  destruct (escaped_percent b2 t) as (h2 & l2 & -> & _ & HB2); [lia|].
  destruct (escaped_percent b1 (37 :: h2 :: l2 :: t))
    as (h1 & l1 & -> & _ & HB1); [lia|].
  destruct (escaped_percent b0 (37 :: h1 :: l1 :: 37 :: h2 :: l2 :: t))
    as (h0 & l0 & -> & HB0 & _); [lia|].
  cbn [decodeURIComponent]. change (negb (37 =? 37)) with false. cbv iota.
  rewrite HB0. do 3 ltb_false. ltb_true. rewrite HB1, HB2, Hd.
  reflexivity.
Qed.

Lemma decode_escape4 cp t :
  65536 <= cp < 1114112 ->
  decodeURIComponent (escape cp ++ t)
  = lift_cons (UTF16EncodeCodePoint cp) (decodeURIComponent t).
Proof.
  intros Hcp. unfold escape, utf8. do 3 ltb_false.
  cbn [flat_map]. rewrite app_nil_r, <- !app_assoc.
  pose proof (decode4_utf8 cp Hcp) as Hd.
  set (b0 := 240 + cp / 262144) in *.
  set (b1 := 128 + (cp / 4096) mod 64) in *.
  set (b2 := 128 + (cp / 64) mod 64) in *.
  set (b3 := 128 + cp mod 64) in *.
  assert (240 <= b0 < 248 /\ 128 <= b1 < 192 /\ 128 <= b2 < 192
          /\ 128 <= b3 < 192)
    as (H0 & H1 & H2 & H3)
    by (subst b0 b1 b2 b3; Z.div_mod_to_equations; lia).
  destruct (escaped_percent b3 t) as (h3 & l3 & -> & _ & HB3); [lia|].
  destruct (escaped_percent b2 (37 :: h3 :: l3 :: t))
    as (h2 & l2 & -> & _ & HB2); [lia|].
  destruct (escaped_percent b1 (37 :: h2 :: l2 :: 37 :: h3 :: l3 :: t))
    as (h1 & l1 & -> & _ & HB1); [lia|].
  destruct (escaped_percent b0
              (37 :: h1 :: l1 :: 37 :: h2 :: l2 :: 37 :: h3 :: l3 :: t))
    as (h0 & l0 & -> & HB0 & _); [lia|].
  cbn [decodeURIComponent]. change (negb (37 =? 37)) with false. cbv iota.
  rewrite HB0. do 4 ltb_false. ltb_true. rewrite HB1, HB2, HB3, Hd.
  reflexivity.
Qed.

Lemma UTF16_bmp cp : cp < 65536 -> UTF16EncodeCodePoint cp = [cp].
Proof. intros H. unfold UTF16EncodeCodePoint. ltb_true. reflexivity. Qed.

Lemma UTF16_pair c d :
  is_lead c = true -> is_trail d = true ->
  let cp := (c - 55296) * 1024 + (d - 56320) + 65536 in
  65536 <= cp < 1114112 /\ UTF16EncodeCodePoint cp = [c; d].
Proof.
  intros Hc Hd cp. unfold is_lead, is_trail in Hc, Hd. bool_arith.
  split; [subst cp; lia|].
  unfold UTF16EncodeCodePoint. ltb_false.
  f_equal; [|f_equal]; subst cp; Z.div_mod_to_equations; lia.
Qed.

Lemma unescaped_not_percent c : uriUnescaped c = true -> c <> 37.
Proof. intros H ->. discriminate H. Qed.

Lemma escape_decoded c t :
  code_unit c -> is_lead c = false -> is_trail c = false ->
  decodeURIComponent (escape c ++ t) = lift_cons [c] (decodeURIComponent t).
Proof.
  unfold code_unit, is_lead, is_trail. intros Hc Hl Ht.
  destruct (Z_lt_dec c 128); [apply decode_escape1; lia|].
  rewrite <- (UTF16_bmp c) by lia.
  destruct (Z_lt_dec c 2048); [apply decode_escape2; lia|].
  apply decode_escape3; [lia|].
  apply between_false. bool_arith. unfold between in *.
  apply andb_false_iff in Hl, Ht.
  destruct Hl as [Hl|Hl], Ht as [Ht|Ht]; bool_arith; lia.
Qed.

Lemma encode_decode_bounded (n : nat) :
  forall s : DOMString,
    (List.length s <= n)%nat -> Forall code_unit s ->
    forall e, encodeURIComponent s = Some e ->
              decodeURIComponent e = Some s.
Proof.
  induction n as [|n IH]; intros s Hlen Hwf e He.
  - destruct s; [|simpl in Hlen; lia]. now inversion He.
  - destruct s as [|c rest]; [now inversion He|].
    simpl in Hlen. inversion Hwf as [|? ? Hc Hrest]; subst.
    cbn [encodeURIComponent] in He.
    destruct (uriUnescaped c) eqn:Hun.
    { destruct (encodeURIComponent rest) as [r|] eqn:Hr; [|discriminate].
      inversion He; subst e.
      rewrite decode_plain by now apply unescaped_not_percent.
      rewrite (IH rest) with (e := r); auto with lia. }
    destruct (is_trail c) eqn:Htr; [discriminate|].
    destruct (is_lead c) eqn:Hld.
    { destruct rest as [|d rest']; [discriminate|].
      destruct (is_trail d) eqn:Htd; [|discriminate].
      destruct (encodeURIComponent rest') as [r|] eqn:Hr; [|discriminate].
      inversion He; subst e.
      destruct (UTF16_pair c d Hld Htd) as [Hcp Hu].
      rewrite decode_escape4 by exact Hcp. rewrite Hu.
      inversion Hrest; subst. simpl in Hlen.
      rewrite (IH rest') with (e := r); auto with lia. }
    destruct (encodeURIComponent rest) as [r|] eqn:Hr; [|discriminate].
    inversion He; subst e.
    rewrite escape_decoded by assumption.
    rewrite (IH rest) with (e := r); auto with lia.
Qed.

Theorem encode_decode (s e : DOMString) :
  Forall code_unit s ->
  encodeURIComponent s = Some e -> decodeURIComponent e = Some s.
Proof. intros. now apply (encode_decode_bounded (List.length s) s). Qed.

Lemma unescaped_ascii c : uriUnescaped c = true -> 0 <= c < 128.
Proof.
  unfold uriUnescaped, is_alpha, is_digit. intros H.
  repeat (apply orb_true_iff in H as [H|H]); bool_arith; lia.
Qed.

(** Encoding fails on unpaired surrogates only. *)
Lemma encode_defined_bounded (n : nat) :
  forall s : DOMString,
    (List.length s <= n)%nat ->
    isWellFormed s = true -> exists e, encodeURIComponent s = Some e.
Proof.
  induction n as [|n IH]; intros s Hlen Hwf.
  - destruct s; [now exists []|simpl in Hlen; lia].
  - destruct s as [|c rest]; [now exists []|].
    simpl in Hlen. cbn [isWellFormed encodeURIComponent] in *.
    destruct (uriUnescaped c) eqn:Hun.
    { apply unescaped_ascii in Hun.
      unfold is_trail, is_lead in Hwf.
      rewrite !between_false in Hwf by lia.
      destruct (IH rest) as [r Hr]; [lia|assumption|].
      rewrite Hr. eauto. }
    destruct (is_trail c) eqn:Htr; [discriminate Hwf|].
    destruct (is_lead c) eqn:Hld.
    + destruct rest as [|d rest']; [discriminate|].
      apply andb_true_iff in Hwf as [Htd Hwf]. simpl in Hlen.
      destruct (IH rest') as [r Hr]; [lia|assumption|].
      rewrite Htd, Hr. eauto.
    + destruct (IH rest) as [r Hr]; [lia|assumption|].
      rewrite Hr. eauto.
Qed.

Lemma encode_defined (s : DOMString) :
  isWellFormed s = true -> exists e, encodeURIComponent s = Some e.
Proof. now apply (encode_defined_bounded (List.length s) s). Qed.

(** *** Writing a string as UTF-8, and reading it back *)

Lemma utf8_decode_utf8 cp t :
  is_scalar cp = true ->
  utf8_decode (utf8 cp ++ t)
  = lift_cons (UTF16EncodeCodePoint cp) (utf8_decode t).
Proof.
  unfold is_scalar. intros H. apply andb_true_iff in H as [Hr Hs].
  apply negb_true_iff in Hs. unfold between in Hr. bool_arith.
  unfold utf8.
  destruct (Z_lt_dec cp 128);
    [|destruct (Z_lt_dec cp 2048); [|destruct (Z_lt_dec cp 65536)]].
  - ltb_true. cbn [app utf8_decode]. ltb_true.
    now rewrite UTF16_bmp by lia.
  - ltb_false. ltb_true. cbn [app utf8_decode].
    assert (192 <= 192 + cp / 64 < 224) by (Z.div_mod_to_equations; lia).
    do 2 ltb_false. ltb_true. now rewrite decode2_utf8 by lia.
  - do 2 ltb_false. ltb_true. cbn [app utf8_decode].
    assert (224 <= 224 + cp / 4096 < 240) by (Z.div_mod_to_equations; lia).
    do 3 ltb_false. ltb_true. now rewrite decode3_utf8 by (assumption || lia).
  - do 3 ltb_false. cbn [app utf8_decode].
    assert (240 <= 240 + cp / 262144 < 248) by (Z.div_mod_to_equations; lia).
    do 4 ltb_false. ltb_true. now rewrite decode4_utf8 by lia.
Qed.

Lemma utf8_decode_scalars cps :
  Forall (fun cp => is_scalar cp = true) cps ->
  utf8_decode (flat_map utf8 cps) = Some (flat_map UTF16EncodeCodePoint cps).
Proof.
  induction 1 as [|cp cps Hcp _ IH]; [reflexivity|].
  cbn [flat_map]. now rewrite utf8_decode_utf8, IH.
Qed.

Lemma replacement_scalar : is_scalar 65533 = true.
Proof. reflexivity. Qed.

Lemma unit_scalar c :
  code_unit c -> is_lead c = false -> is_trail c = false ->
  is_scalar c = true.
Proof.
  unfold code_unit, is_lead, is_trail, is_scalar. intros Hc Hl Ht.
  rewrite between_true by lia. apply negb_true_iff, between_false.
  unfold between in Hl, Ht. apply andb_false_iff in Hl, Ht.
  destruct Hl as [Hl|Hl], Ht as [Ht|Ht]; bool_arith; lia.
Qed.

Lemma pair_scalar c d :
  is_lead c = true -> is_trail d = true ->
  is_scalar ((c - 55296) * 1024 + (d - 56320) + 65536) = true.
Proof.
  intros Hc Hd. destruct (UTF16_pair c d Hc Hd) as [Hcp _].
  unfold is_scalar. rewrite between_true by lia.
  apply negb_true_iff, between_false. lia.
Qed.

Lemma scalar_values_bounded (n : nat) :
  forall s : DOMString,
    (List.length s <= n)%nat -> Forall code_unit s ->
    Forall (fun cp => is_scalar cp = true) (scalar_values s).
Proof.
  induction n as [|n IH]; intros s Hlen Hunits.
  - destruct s; [constructor | simpl in Hlen; lia].
  - destruct s as [|c rest]; [constructor|].
    simpl in Hlen. inversion Hunits as [|? ? Hc Hrest]; subst.
    cbn [scalar_values].
    destruct (is_trail c) eqn:Htr.
    { constructor; [apply replacement_scalar | apply IH; [lia|assumption]]. }
    destruct (is_lead c) eqn:Hld.
    + destruct rest as [|d rest']; [repeat constructor|].
      destruct (is_trail d) eqn:Htd.
      * constructor; [now apply pair_scalar|].
        inversion Hrest; subst. simpl in Hlen. apply IH; [lia|assumption].
      * constructor; [apply replacement_scalar | apply IH; [lia|assumption]].
    + constructor; [now apply unit_scalar | apply IH; [lia|assumption]].
Qed.

(** Read back as UTF-8, what [writeFile] wrote of a string is the string
    with every unpaired surrogate replaced by U+FFFD. *)
Lemma utf8_decode_encode (s : DOMString) :
  Forall code_unit s -> utf8_decode (utf8_encode s) = Some (toWellFormed s).
Proof.
  intros Hunits. apply utf8_decode_scalars.
  now apply (scalar_values_bounded (List.length s)).
Qed.

Lemma toWellFormed_bounded (n : nat) :
  forall s : DOMString,
    (List.length s <= n)%nat -> Forall code_unit s ->
    isWellFormed s = true -> toWellFormed s = s.
Proof.
  unfold toWellFormed.
  induction n as [|n IH]; intros s Hlen Hunits Hwf.
  - destruct s; [reflexivity | simpl in Hlen; lia].
  - destruct s as [|c rest]; [reflexivity|].
    simpl in Hlen. inversion Hunits as [|? ? Hc Hrest]; subst.
    cbn [scalar_values isWellFormed] in *.
    destruct (is_trail c) eqn:Htr; [discriminate|].
    destruct (is_lead c) eqn:Hld.
    + destruct rest as [|d rest']; [discriminate|].
      apply andb_true_iff in Hwf as [Htd Hwf]. rewrite Htd.
      cbn [flat_map]. destruct (UTF16_pair c d Hld Htd) as [_ ->].
      inversion Hrest; subst. simpl in Hlen.
      rewrite IH; [reflexivity|lia|assumption|assumption].
    + cbn [flat_map]. rewrite UTF16_bmp by (unfold code_unit in Hc; lia).
      rewrite IH; [reflexivity|lia|assumption|assumption].
Qed.

(** A string without an unpaired surrogate is written and read back
    unchanged. *)
Lemma utf8_round_trip (s : DOMString) :
  Forall code_unit s -> isWellFormed s = true ->
  utf8_decode (utf8_encode s) = Some s.
Proof.
  intros Hunits Hwf. rewrite utf8_decode_encode by assumption.
  now rewrite (toWellFormed_bounded (List.length s)).
Qed.

(** *** The prefix of the data URL *)

Lemma literal_app l t : literal l (l ++ t) = Some t.
Proof.
  induction l as [|a l IH]; [reflexivity|].
  cbn [literal app]. now rewrite Z.eqb_refl.
Qed.

Lemma skip_word_stops x y c r :
  skip_word x = c :: r -> skip_word (x ++ y) = c :: r ++ y.
Proof.
  induction x as [|a x IH]; [discriminate|].
  cbn [skip_word app]. destruct (is_word a); [exact IH|].
  intros [= -> ->]. reflexivity.
Qed.

Lemma skip_word_all x y :
  skip_word x = [] -> skip_word (x ++ y) = skip_word y.
Proof.
  induction x as [|a x IH]; [reflexivity|].
  cbn [skip_word app]. destruct (is_word a); [exact IH|discriminate].
Qed.

Lemma match_data_prefix_built mimeType e :
  is_word_mime mimeType = true ->
  match_data_prefix
    (units "data:" ++ units mimeType ++ units ";charset=utf-8," ++ e)
  = Some e.
Proof.
  unfold is_word_mime, match_data_prefix. intros Hm.
  rewrite literal_app.
  destruct (units mimeType) as [|c0 r0]; [discriminate|].
  cbn [word_plus app] in *.
  destruct (is_word c0); [|discriminate].
  destruct (skip_word r0) as [|c r1] eqn:Hr0; [discriminate|].
  apply andb_true_iff in Hm as [Hc Hm]. apply Z.eqb_eq in Hc. subst c.
  rewrite (skip_word_stops _ _ _ _ Hr0).
  change (literal (units "/") (47 :: r1 ++ units ";charset=utf-8," ++ e))
    with (Some (r1 ++ units ";charset=utf-8," ++ e)).
  destruct r1 as [|c1 r1']; [discriminate|].
  cbn [word_plus app] in *.
  destruct (is_word c1); [|discriminate].
  destruct (skip_word r1') eqn:Hr1; [|discriminate].
  rewrite (skip_word_all _ _ Hr1).
  change (skip_word (units ";charset=utf-8," ++ e))
    with (units ";charset=utf-8," ++ e).
  apply literal_app.
Qed.

(** C8.  Encoding a markup string as a data URL, the fixed prefix
    [data:<mime>;charset=utf-8,] followed by the percent-encoding of the
    markup, and then decoding it the way the modern extraction path does
    (strip the prefix, percent-decode the rest) gives the markup back.
    The MIME type is one that the prefix expression matches, as text/html,
    the one [evaluateHTML] asks for. *)
Theorem data_url_round_trip
    (mimeType : string) (markup dataURL : DOMString) :
  is_word_mime mimeType = true ->
  Forall code_unit markup ->
  rsDocToDataURL mimeType markup = Some dataURL ->
  decodeDataURL dataURL = Some markup.
Proof.
  intros Hmime Hunits. unfold rsDocToDataURL, decodeDataURL.
  destruct (encodeURIComponent markup) as [e|] eqn:He; [|discriminate].
  intros Hurl.
  assert (dataURL = units "data:" ++ units mimeType
                      ++ units ";charset=utf-8," ++ e) as ->
    by congruence.
  unfold replace_data_prefix.
  rewrite (match_data_prefix_built _ _ Hmime).
  exact (encode_decode markup e Hunits He).
Qed.

End URIFacts.

(** ** tools/respecDocWriter.js *)

Section DocWriterFacts.
Import URI JS DocWriter.

Lemma emit_all_run es w :
  emit_all es w = (Normal tt, {| log := rev es ++ log w; fs := fs w |}).
Proof.
  revert w. induction es as [|e es IH]; intros w.
  - now destruct w.
  - cbn [emit_all]. unfold bind, emit. rewrite IH. cbn [log fs rev].
    now rewrite <- app_assoc.
Qed.

Lemma during_run {A} env ph (m : M A) w :
  during env ph m w
  = m {| log := rev (List.map EvInvoke (bridge (env_emitted env ph)))
                  ++ log w;
         fs := fs w |}.
Proof. unfold during, bind. now rewrite emit_all_run. Qed.

(** *** Steps of a run *)

Lemma during_await {A} env ph (o : Outcome A) w :
  during env ph (await o) w
  = (match o with inl a => Normal a | inr e => Throw e end,
     {| log := rev (List.map EvInvoke (bridge (env_emitted env ph)))
                 ++ log w;
        fs := fs w |}).
Proof. rewrite during_run. now destruct o. Qed.

Lemma bind_emit {A} e (k : unit -> M A) w :
  bind (emit e) k w = k tt {| log := e :: log w; fs := fs w |}.
Proof. reflexivity. Qed.

Lemma bind_await {A B} (o : Outcome A) (k : A -> M B) w :
  bind (await o) k w
  = match o with inl a => k a w | inr e => (Throw e, w) end.
Proof. now destruct o. Qed.

Lemma bind_during_await {A B} env ph (o : Outcome A) (k : A -> M B) w :
  bind (during env ph (await o)) k w
  = let w' := {| log := rev (List.map EvInvoke (bridge (env_emitted env ph)))
                          ++ log w;
                 fs := fs w |} in
    match o with inl a => k a w' | inr e => (Throw e, w') end.
Proof. unfold bind. rewrite during_await. now destruct o. Qed.

Lemma bind_ret {A B} (a : A) (k : A -> M B) w : bind (ret a) k w = k a w.
Proof. reflexivity. Qed.

Lemma bind_during_ret {A B} env ph (a : A) (k : A -> M B) w :
  bind (during env ph (ret a)) k w
  = k a {| log := rev (List.map EvInvoke (bridge (env_emitted env ph)))
                    ++ log w;
           fs := fs w |}.
Proof. unfold bind. now rewrite during_run. Qed.

Lemma timeout_settled env ms w settled :
  env_race env = ReadyFirst settled ->
  DocWriter.timeout env ms w
  = (match settled with inl a => Normal a | inr e => Throw e end,
     {| log := EvSetTimeout ms :: log w; fs := fs w |}).
Proof.
  intros Hrace. unfold DocWriter.timeout. rewrite bind_emit, Hrace.
  now destruct settled.
Qed.

Lemma require_run env module w :
  require env module w
  = (match env_require env module with
     | inl a => Normal a
     | inr e => Throw e
     end,
     {| log := EvRequire module :: log w; fs := fs w |}).
Proof.
  unfold require. rewrite bind_emit. now destruct (env_require env module).
Qed.

Lemma render_accepted env src timeout timer url response w :
  navigated env src url response ->
  accepted response = true ->
  render env src timeout timer w
  = (checkIfReSpec env ;; generateHTML env url timer)
      {| log := log_navigated env url timeout w; fs := fs w |}.
Proof.
  intros (Hpage & Hexpose & Hurl & Hgoto) Hacc. unfold render.
  rewrite bind_emit, bind_await, Hpage, bind_emit, bind_await, Hexpose.
  rewrite bind_emit, bind_await, Hurl, bind_emit, bind_during_await, Hgoto.
  cbv zeta. rewrite bind_ret.
  unfold accepted in Hacc.
  assert (negb (ok response) && negb (status response =? 0) = false) as ->
    by (destruct (ok response), (status response =? 0); trivial;
        discriminate).
  now rewrite bind_ret.
Qed.

Lemma callback_of_dispatch e :
  flat_map onRespecErrorOrWarning (dispatch e)
  = match callback_of e with Some cb => [cb] | None => [] end.
Proof.
  unfold dispatch, listeners, callback_of.
  cbn [List.map flat_map fst snd].
  rewrite (String.eqb_sym "respecwarn"), (String.eqb_sym "respecerror").
  destruct (String.eqb (ev_type e) "respecwarn") eqn:Hw;
    destruct (String.eqb (ev_type e) "respecerror") eqn:He;
    try reflexivity.
  apply String.eqb_eq in Hw, He. congruence.
Qed.

Lemma fetchAndWrite_cut env src out options w :
  fetchAndWrite env src out options w
  = (acquire env options ;;
     try_finally (body env src out options) (release env)) w.
Proof.
  unfold fetchAndWrite, acquire, body, release, bind, emit, await.
  destruct (env_mkdtemp env); [|reflexivity]. cbn [ret].
  destruct (env_launch env); reflexivity.
Qed.

(** When the session is acquired the guarded block runs, and the release
    follows it unless the process has exited. *)
Lemma fetchAndWrite_acquired env src out options files :
  acquired env ->
  exists w1,
    acquire env options (initial files) = (Normal tt, w1)
    /\ fs w1 = files
    /\ count_close (events w1) = 0%nat
    /\ fetchAndWrite env src out options (initial files)
       = try_finally (body env src out options) (release env) w1.
Proof.
  intros [[dir Hdir] Hlaunch].
  rewrite fetchAndWrite_cut.
  unfold acquire, bind, emit, await. rewrite Hdir. cbn [ret].
  rewrite Hlaunch. cbn [ret]. eexists. repeat split.
Qed.

Lemma count_close_app l1 l2 :
  count_close (l1 ++ l2) = (count_close l1 + count_close l2)%nat.
Proof. unfold count_close. now rewrite List.filter_app, length_app. Qed.

Lemma count_close_rev l : count_close (rev l) = count_close l.
Proof.
  induction l as [|e l IH]; [reflexivity|].
  cbn [rev]. rewrite count_close_app, IH.
  unfold count_close. cbn [List.filter]. destruct (is_close e); simpl; lia.
Qed.

Lemma count_close_invoke cbs :
  count_close (List.map EvInvoke cbs) = 0%nat.
Proof. induction cbs as [|c cbs IH]; [reflexivity|exact IH]. Qed.

Lemma count_close_cons e l :
  count_close (e :: l)
  = ((if is_close e then 1 else 0) + count_close l)%nat.
Proof. unfold count_close. cbn [List.filter]. now destruct (is_close e). Qed.

(** *** Frame rules of the completion monad *)

Section Preorder.
Context (R : World -> World -> Prop) `{!PreOrder R}.

Lemma preserves_ret {A} (a : A) : preserves R (ret a).
Proof. intros w. reflexivity. Qed.

Lemma preserves_throw {A} e : preserves R (@throw A e).
Proof. intros w. reflexivity. Qed.

Lemma preserves_await {A} (o : Outcome A) : preserves R (await o).
Proof. destruct o; [apply preserves_ret | apply preserves_throw]. Qed.

Lemma preserves_bind {A B} (m : M A) (k : A -> M B) :
  preserves R m -> (forall a, preserves R (k a)) -> preserves R (bind m k).
Proof.
  intros Hm Hk w. unfold bind. specialize (Hm w).
  destruct (m w) as [[a|e|c] w']; cbn [snd] in *; try assumption.
  transitivity w'; [assumption | apply Hk].
Qed.

Lemma preserves_try_catch {A} (m : M A) (h : Thrown -> M A) :
  preserves R m -> (forall e, preserves R (h e)) ->
  preserves R (try_catch m h).
Proof.
  intros Hm Hh w. unfold try_catch. specialize (Hm w).
  destruct (m w) as [[a|e|c] w']; cbn [snd] in *; try assumption.
  transitivity w'; [assumption | apply Hh].
Qed.

Lemma preserves_try_finally {A} (m : M A) (f : M unit) :
  preserves R m -> preserves R f -> preserves R (try_finally m f).
Proof.
  intros Hm Hf w. unfold try_finally. specialize (Hm w).
  destruct (m w) as [[a|e|c] w']; cbn [snd] in *; try assumption.
  all: specialize (Hf w'); destruct (f w') as [[[]|e'|c'] w''];
    cbn [snd] in *; transitivity w'; assumption.
Qed.
End Preorder.

#[local] Instance extends_preorder P : PreOrder (extends P).
Proof.
  split.
  - intros w. exists []. split; [reflexivity | constructor].
  - intros a b c (n1 & H1 & F1) (n2 & H2 & F2).
    exists (n2 ++ n1). split.
    + now rewrite H2, H1, app_assoc.
    + apply Forall_app; split; assumption.
Qed.

#[local] Instance same_files_preorder : PreOrder same_files.
Proof.
  split.
  - intros w. reflexivity.
  - intros a b c H1 H2. unfold same_files in *. congruence.
Qed.

Lemma emit_extends (P : Event -> Prop) e : P e -> preserves (extends P) (emit e).
Proof. intros He w. exists [e]. split; [reflexivity | now constructor]. Qed.

Lemma emit_all_extends (P : Event -> Prop) es :
  Forall P es -> preserves (extends P) (emit_all es).
Proof.
  intros Hes w. rewrite emit_all_run. exists (rev es). split; [reflexivity|].
  now apply List.Forall_rev.
Qed.

Lemma invoke_extends (P : Event -> Prop) cbs :
  (forall cb, P (EvInvoke cb)) ->
  preserves (extends P) (emit_all (List.map EvInvoke cbs)).
Proof.
  intros HP. apply emit_all_extends, List.Forall_forall.
  intros e He. apply List.in_map_iff in He as (cb & <- & _). apply HP.
Qed.

Lemma store_extends (P : Event -> Prop) path data :
  preserves (extends P) (store path data).
Proof. intros w. exists []. split; [reflexivity | constructor]. Qed.

Lemma process_exit_extends (P : Event -> Prop) {A} code :
  P (EvProcessExit code) -> preserves (extends P) (@process_exit A code).
Proof.
  intros He w. exists [EvProcessExit code].
  split; [reflexivity | now constructor].
Qed.

Lemma emit_files e : preserves same_files (emit e).
Proof. intros w. reflexivity. Qed.

Lemma emit_all_files es : preserves same_files (emit_all es).
Proof. intros w. now rewrite emit_all_run. Qed.

Lemma exit_free_ret {A} (a : A) : exit_free (ret a).
Proof. intros w c. discriminate. Qed.

Lemma exit_free_throw {A} e : exit_free (@throw A e).
Proof. intros w c. discriminate. Qed.

Lemma exit_free_await {A} (o : Outcome A) : exit_free (await o).
Proof. destruct o; [apply exit_free_ret | apply exit_free_throw]. Qed.

Lemma exit_free_emit e : exit_free (emit e).
Proof. intros w c. discriminate. Qed.

Lemma exit_free_emit_all es : exit_free (emit_all es).
Proof. intros w c. rewrite emit_all_run. discriminate. Qed.

Lemma exit_free_bind {A B} (m : M A) (k : A -> M B) :
  exit_free m -> (forall a, exit_free (k a)) -> exit_free (bind m k).
Proof.
  intros Hm Hk w c. unfold bind. specialize (Hm w).
  destruct (m w) as [[a|e|c'] w']; cbn [fst] in *;
    [apply Hk | discriminate | now destruct (Hm c')].
Qed.

Lemma exit_free_try_catch {A} (m : M A) (h : Thrown -> M A) :
  exit_free m -> (forall e, exit_free (h e)) -> exit_free (try_catch m h).
Proof.
  intros Hm Hh w c. unfold try_catch. specialize (Hm w).
  destruct (m w) as [[a|e|c'] w']; cbn [fst] in *;
    [discriminate | apply Hh | now destruct (Hm c')].
Qed.

(** Decomposition of a frame goal along the program text; [leaf] closes
    the goals about single effects. *)
Ltac frame leaf :=
  repeat first
    [ apply preserves_ret; typeclasses eauto
    | apply preserves_throw; typeclasses eauto
    | apply preserves_await; typeclasses eauto
    | apply preserves_bind; [typeclasses eauto| |intros ?]
    | apply preserves_try_catch; [typeclasses eauto| |intros ?]
    | progress unfold during
    | leaf
    | match goal with
      | |- preserves _ (match ?x with _ => _ end) => destruct x
      end ].

Ltac exit_freedom :=
  repeat first
    [ apply exit_free_ret | apply exit_free_throw | apply exit_free_await
    | apply exit_free_emit | apply exit_free_emit_all
    | apply exit_free_bind; [|intros ?]
    | apply exit_free_try_catch; [|intros ?]
    | progress unfold during
    | match goal with
      | |- exit_free (match ?x with _ => _ end) => destruct x
      end ].

Ltac render_leaf :=
  first [ apply emit_extends; exact I
        | apply emit_extends; reflexivity
        | apply invoke_extends; intros ?; exact I ].

Ltac files_leaf := first [ apply emit_files | apply emit_all_files ].

Lemma generateHTML_events timeout env url timer :
  preserves (extends (render_event timeout)) (generateHTML env url timer).
Proof.
  unfold generateHTML, evaluateHTML, DocWriter.timeout, require.
  frame render_leaf.
Qed.

Lemma render_events env src timeout timer :
  preserves (extends (render_event timeout)) (render env src timeout timer).
Proof.
  unfold render, checkIfReSpec, isRespec.
  frame ltac:(first [render_leaf | apply generateHTML_events]).
Qed.

Lemma render_files env src timeout timer :
  preserves same_files (render env src timeout timer).
Proof.
  unfold render, checkIfReSpec, isRespec, generateHTML, evaluateHTML,
    DocWriter.timeout, require.
  frame files_leaf.
Qed.

Lemma render_exit_free env src timeout timer :
  exit_free (render env src timeout timer).
Proof.
  unfold render, checkIfReSpec, isRespec, generateHTML, evaluateHTML,
    DocWriter.timeout, require.
  exit_freedom.
Qed.

Lemma deliver_events env out beforeWrite html :
  preserves (extends deliver_event) (deliver env out beforeWrite html).
Proof.
  unfold deliver, writeTo.
  frame ltac:(first [ apply emit_extends; exact I
                    | apply invoke_extends; intros ?; exact I
                    | apply store_extends
                    | apply process_exit_extends; exact I ]).
Qed.

(** *** The version gate *)

Example getVersion_release :
  getVersion "20.10.0" = detected (20, 10, 0)%N
  /\ getVersion "20.9.12" = detected (20, 9, 12)%N
  /\ getVersion "19.99.99" = detected (19, 99, 99)%N
  /\ getVersion "25.1.0" = detected (25, 1, 0)%N.
Proof. repeat split. Qed.

Lemma by_value_detected v : List.map by_value (detected v) = detected v.
Proof. now destruct v as [[a b] c]. Qed.

Lemma select_detected v :
  select (detected v) = Legacy <-> lex_lt v (20, 10, 0)%N.
Proof.
  destruct v as [[a b] c]. unfold select, detected, lex_lt.
  cbn [lookup list_lookup JS.lt strict_eq].
  destruct (Z.of_N a <? 20) eqn:Ha; cbn [orb].
  - apply Z.ltb_lt in Ha. split; [intros _; left; lia | reflexivity].
  - apply Z.ltb_ge in Ha.
    destruct (Z.of_N a =? 20) eqn:Ea; cbn [andb].
    + apply Z.eqb_eq in Ea.
      destruct (Z.of_N b <? 10) eqn:Hb.
      * apply Z.ltb_lt in Hb. split; [intros _; right; lia | reflexivity].
      * apply Z.ltb_ge in Hb. split; [discriminate | lia].
    + apply Z.eqb_neq in Ea. split; [discriminate | lia].
Qed.

Lemma lex_total v v' : lex_lt v v' \/ lex_le v' v.
Proof.
  destruct v as [[a b] c], v' as [[a' b'] c']. unfold lex_le, lex_lt.
  destruct (N.lt_total a a') as [?|[->|?]]; [lia| |lia].
  destruct (N.lt_total b b') as [?|[->|?]]; [lia| |lia].
  destruct (N.lt_total c c') as [?|[->|?]]; [lia| |lia].
  right. right. reflexivity.
Qed.

Lemma lex_lt_le_false v v' : lex_lt v v' -> lex_le v' v -> False.
Proof.
  destruct v as [[a b] c], v' as [[a' b'] c']. unfold lex_le, lex_lt.
  intros H [H'|[= -> -> ->]]; lia.
Qed.

Lemma evaluateHTML_ready env version ms w :
  env_race env = ReadyFirst (inl tt) ->
  events (snd (evaluateHTML env version ms w))
  = events w ++ EvSetTimeout ms :: extraction_events env (select version).
Proof.
  intros Hrace.
  unfold evaluateHTML, DocWriter.timeout, require, bind, emit, events.
  rewrite Hrace. cbn [await ret log].
  destruct (select version); cbn [log extraction_events].
  - destruct (env_require env "ui/save-html"); cbn [await ret throw snd log rev];
      now rewrite <- !app_assoc.
  - destruct (env_require env "core/exporter");
      cbn [await ret throw snd log rev].
    + destruct (rsDocToDataURL _ _) as [d|];
        [destruct (decodeDataURL d)|]; cbn [ret throw snd log rev];
        now rewrite <- !app_assoc.
    + now rewrite <- !app_assoc.
Qed.

(** C1.  For every version triple the extraction takes the legacy path
    exactly when the triple is lexicographically below (20, 10, 0), and
    then warns once on the console before it loads ui/save-html; from
    (20, 10, 0) on, the boundary included, it takes the modern path and
    loads core/exporter without a warning.  The version string
    "Developer Edition" is read as (123456789, 0, 0) and so takes the
    modern path. *)
Theorem version_gate env (v : Version) ms w :
  env_race env = ReadyFirst (inl tt) ->
  (lex_lt v (20, 10, 0)%N <-> select (detected v) = Legacy)
  /\ (lex_le (20, 10, 0)%N v <-> select (detected v) = Modern)
  /\ events (snd (evaluateHTML env (detected v) ms w))
     = events w ++ EvSetTimeout ms
         :: extraction_events env (select (detected v))
  /\ select (detected (20, 10, 0)%N) = Modern
  /\ getVersion "Developer Edition" = detected (123456789, 0, 0)%N
  /\ select (List.map by_value (getVersion "Developer Edition")) = Modern.
Proof.
  intros Hrace. pose proof (select_detected v) as Hsel.
  repeat split; try reflexivity.
  - apply Hsel.
  - apply Hsel.
  - intros Hle. destruct (select (detected v)) eqn:E; [|reflexivity].
    exfalso. apply (lex_lt_le_false v (20, 10, 0)%N); [now apply Hsel|assumption].
  - intros Hm. destruct (lex_total v (20, 10, 0)%N) as [Hlt|Hle];
      [|assumption].
    apply Hsel in Hlt. congruence.
  - now apply evaluateHTML_ready.
Qed.

(** *** Release of the session *)

Lemma try_finally_release {A} env (m : M A) w :
  try_finally m (release env) w
  = match m w with
    | (Exit c, w') => (Exit c, w')
    | (r, w') =>
        (match env_browser_close env with inl _ => r | inr e => Throw e end,
         released w')
    end.
Proof.
  unfold try_finally, release, bind, emit, await, released.
  destruct (m w) as [[a|e|c] w']; [| |reflexivity];
    destruct (env_browser_close env); reflexivity.
Qed.

Lemma extends_weaken (P Q : Event -> Prop) w w' :
  (forall e, P e -> Q e) -> extends P w w' -> extends Q w w'.
Proof.
  intros HPQ (new & Hlog & Hnew). exists new. split; [assumption|].
  eapply List.Forall_impl; eassumption.
Qed.

Lemma extends_count_close w w' :
  extends (fun e => is_close e = false) w w' ->
  count_close (events w') = count_close (events w).
Proof.
  intros (new & Hlog & Hnew). unfold events.
  rewrite !count_close_rev, Hlog, count_close_app.
  assert (count_close new = 0%nat) as ->; [|reflexivity].
  clear Hlog. induction Hnew as [|e l He _ IH]; [reflexivity|].
  now rewrite count_close_cons, He, IH.
Qed.

Lemma body_events env src out options :
  preserves (extends (fun e => is_close e = false))
            (body env src out options).
Proof.
  unfold body, pipeline. apply preserves_bind; [typeclasses eauto| |intros html].
  - intros w. eapply extends_weaken; [|apply render_events].
    intros []; cbn; intros H; try reflexivity; contradiction.
  - intros w. eapply extends_weaken; [|apply deliver_events].
    intros []; cbn; intros H; try reflexivity; contradiction.
Qed.

(** [deliver] ends the process only where [writeTo] does: when writing
    the file fails. *)
Lemma deliver_exit env out beforeWrite html w c :
  fst (deliver env out beforeWrite html w) = Exit c ->
  c = 1 /\ exists path err,
    out = Some path /\ path <> ""
    /\ env_writeFile env (newFilePath env path) = inr err.
Proof.
  unfold deliver, bind. cbn [emit]. rewrite during_await.
  destruct beforeWrite as [[]|e]; [|discriminate].
  destruct out as [path|].
  - destruct path as [|a path].
    + cbn [ret emit]. rewrite during_await.
      destruct (env_page_close env); discriminate.
    + unfold writeTo, bind. cbn [emit]. rewrite during_run.
      destruct (env_writeFile env (newFilePath env (String a path)))
        as [[]|err] eqn:Hw.
      * cbn [store emit]. rewrite during_await.
        destruct (env_page_close env); discriminate.
      * cbn [emit process_exit fst]. intros [= <-].
        split; [reflexivity|]. exists (String a path), err.
        repeat split; [discriminate | assumption].
  - cbn [emit]. rewrite during_await.
    destruct (env_page_close env); discriminate.
Qed.

Lemma body_exit env src out options w c :
  fst (body env src out options w) = Exit c ->
  c = 1 /\ exists path err,
    out = Some path /\ path <> ""
    /\ env_writeFile env (newFilePath env path) = inr err.
Proof.
  unfold body, pipeline, bind.
  pose proof (render_exit_free env src
                (default 300000 (opt_timeout options))
                (createTimer env (default 300000 (opt_timeout options))) w)
    as Hfree.
  destruct (render _ _ _ _ w) as [[html|e|c'] w2]; cbn [fst] in *.
  - apply deliver_exit.
  - discriminate.
  - now destruct (Hfree c').
Qed.

(** C2.  Once the session is acquired, every run that fulfils or rejects
    the promise of [fetchAndWrite] has released the session exactly once.
    A run also ends when [writeTo] fails to write the output file: it
    calls [process.exit(1)], the [finally] block does not run, and the
    session has not been released. *)
Theorem session_released_unless_exit env src out options files :
  acquired env ->
  let run := fetchAndWrite env src out options (initial files) in
  count_close (events (snd run))
  = match fst run with Exit _ => 0%nat | _ => 1%nat end
  /\ (forall c, fst run = Exit c ->
        c = 1 /\ exists path err,
          out = Some path /\ path <> ""
          /\ env_writeFile env (newFilePath env path) = inr err).
Proof.
  intros Hacq run. subst run.
  destruct (fetchAndWrite_acquired env src out options files Hacq)
    as (w1 & _ & _ & Hzero & ->).
  rewrite try_finally_release.
  pose proof (body_events env src out options w1) as Hext.
  apply extends_count_close in Hext. rewrite Hzero in Hext.
  pose proof (body_exit env src out options w1) as Hexit.
  destruct (body env src out options w1) as [[a|e|c] w']; cbn [fst snd] in *.
  - split.
    + unfold events, released in *. cbn [log rev].
      rewrite count_close_app, Hext.
      now destruct (env_browser_close env).
    + intros c. destruct (env_browser_close env); discriminate.
  - split.
    + unfold events, released in *. cbn [log rev].
      rewrite count_close_app, Hext.
      now destruct (env_browser_close env).
    + intros c. destruct (env_browser_close env); discriminate.
  - split; [assumption|]. intros c' [= <-]. now apply Hexit.
Qed.

(** C7.  When the session is acquired, [fetchAndWrite] ends as the guarded
    block ends only if the release succeeds or the process has exited.
    A release that fails is neither caught nor logged: its error becomes
    the outcome of [fetchAndWrite], in place of the markup or of the
    error that the guarded block ended with, and the call of
    [browser.close()] is the only effect after the block. *)
Theorem release_failure_replaces_outcome env src out options files :
  acquired env ->
  exists w1,
    acquire env options (initial files) = (Normal tt, w1)
    /\ fetchAndWrite env src out options (initial files)
       = match body env src out options w1 with
         | (Exit c, w') => (Exit c, w')
         | (primary, w') =>
             (match env_browser_close env with
              | inl _ => primary
              | inr e => Throw e
              end, released w')
         end.
Proof.
  intros Hacq.
  destruct (fetchAndWrite_acquired env src out options files Hacq)
    as (w1 & Hw1 & _ & _ & ->).
  exists w1. split; [assumption|]. apply try_finally_release.
Qed.

(** *** The diagnostic bridge *)

Lemma dispatch_raise d :
  flat_map onRespecErrorOrWarning (dispatch (raise d)) = [callback_for d].
Proof. destruct d as [[] detail]; reflexivity. Qed.

Lemma bridge_raise (raised : list (Kind * Detail)) :
  bridge (List.map raise raised) = List.map callback_for raised.
Proof.
  unfold bridge. induction raised as [|d rest IH]; [reflexivity|].
  cbn [List.map flat_map]. rewrite flat_map_app, dispatch_raise, IH.
  reflexivity.
Qed.




(** An event of any other type runs no callback. *)
Lemma callback_of_other e :
  ev_type e <> "respecerror" -> ev_type e <> "respecwarn" ->
  callback_of e = None.
Proof.
  intros He Hw. unfold callback_of.
  apply String.eqb_neq in He, Hw. now rewrite He, Hw.
Qed.

Lemma other_events_ignored e :
  ev_type e <> "respecerror" -> ev_type e <> "respecwarn" ->
  flat_map onRespecErrorOrWarning (dispatch e) = [].
Proof.
  intros He Hw. now rewrite callback_of_dispatch, callback_of_other.
Qed.

(** In a run, the events raised while the program awaits are delivered
    before it goes on. *)
Lemma diagnostics_during {A} env ph (m : M A) w raised :
  env_emitted env ph = List.map raise raised ->
  during env ph m w
  = m {| log := rev (List.map EvInvoke (List.map callback_for raised))
                  ++ log w;
         fs := fs w |}.
Proof.
  intros H. now rewrite during_run, H, bridge_raise.
Qed.



#[local] Instance delivers_preorder env : PreOrder (delivers env).
Proof.
  split.
  - intros w. exists []. split; reflexivity.
  - intros a b c (n1 & H1 & F1) (n2 & H2 & F2).
    exists (n2 ++ n1). split.
    + now rewrite H2, H1, app_assoc.
    + now rewrite rev_app_distr, omap_app, flat_map_app, F1, F2.
Qed.














(** *** The bound on navigation *)

Lemma preserves_weaken {A} (P Q : Event -> Prop) (m : M A) :
  (forall e, P e -> Q e) ->
  preserves (extends P) m -> preserves (extends Q) m.
Proof. intros HPQ Hm w. eapply extends_weaken; [exact HPQ | apply Hm]. Qed.

Lemma fetchAndWrite_events env src out options :
  preserves (extends (goto_bounded (default 300000 (opt_timeout options))))
            (fetchAndWrite env src out options).
Proof.
  unfold fetchAndWrite.
  apply preserves_bind; [typeclasses eauto| |intros dir].
  { frame ltac:(apply emit_extends; exact I). }
  apply preserves_bind; [typeclasses eauto| |intros _].
  { apply emit_extends; exact I. }
  apply preserves_bind; [typeclasses eauto| |intros _].
  { apply preserves_await; typeclasses eauto. }
  apply preserves_try_finally; [typeclasses eauto| |].
  - unfold pipeline.
    apply preserves_bind; [typeclasses eauto| |intros html].
    + eapply preserves_weaken; [|apply render_events].
      intros []; cbn; intros H; try exact I; try contradiction; exact H.
    + eapply preserves_weaken; [|apply deliver_events].
      intros []; cbn; intros H; try exact I; contradiction.
  - frame ltac:(apply emit_extends; exact I).
Qed.

(** C6.  Navigation is bounded by the configured timeout, 300000 when the
    caller gave none: every [page.goto] of a run is given that duration,
    whatever the clock shows when navigation begins. *)
Theorem navigation_bounded_by_timeout
    env src out options files url bound :
  In (EvGoto url bound)
     (events (snd (fetchAndWrite env src out options (initial files)))) ->
  bound = default 300000 (opt_timeout options).
Proof.
  intros Hin.
  destruct (fetchAndWrite_events env src out options (initial files))
    as (new & Hlog & Hnew).
  unfold events in Hin. rewrite Hlog in Hin. cbn [initial log] in Hin.
  rewrite app_nil_r in Hin. apply List.in_rev in Hin.
  exact (proj1 (List.Forall_forall _ _) Hnew _ Hin).
Qed.

(** *** The readiness wait *)







(** *** The transport error *)

Lemma append_nil_r (s : string) : s +:+ "" = s.
Proof.
  induction s as [|a s IH]; [reflexivity|].
  change (String a (s +:+ "") = String a s). now rewrite IH.
Qed.

Lemma prefix_other_head a b pat s :
  Ascii.eqb b a = false -> String.prefix (String a pat) (String b s) = false.
Proof.
  intros H. simpl. destruct (ascii_dec a b) as [->|]; [|reflexivity].
  now rewrite Ascii.eqb_refl in H.
Qed.

(** Text without the first character of the pattern is copied. *)
Lemma replace_from_prefix a pat rep p t :
  has_char a p = false ->
  replace_from (String a pat) rep 0 (p +:+ t)
  = p +:+ replace_from (String a pat) rep 0 t.
Proof.
  induction p as [|b p IH]; intros H; [reflexivity|].
  cbn [has_char] in H. apply orb_false_iff in H as [Hb Hp].
  change (String b p +:+ t) with (String b (p +:+ t)).
  cbn [replace_from]. rewrite (prefix_other_head _ _ _ _ Hb), (IH Hp).
  reflexivity.
Qed.

(** Text without a line break is copied. *)
Lemma reopen_prefix open close p t :
  has_char LF p = false -> has_char CR p = false ->
  reopen open close false (p +:+ t) = p +:+ reopen open close false t.
Proof.
  induction p as [|b p IH]; intros Hlf Hcr; [reflexivity|].
  cbn [has_char] in Hlf, Hcr.
  apply orb_false_iff in Hlf as [Hb1 Hlf], Hcr as [Hb2 Hcr].
  change (String b p +:+ t) with (String b (p +:+ t)).
  cbn [reopen]. unfold is_newline. rewrite Hb1, Hb2. cbn [orb].
  change ("" +:+ String b (reopen open close false (p +:+ t)))
    with (String b (reopen open close false (p +:+ t))).
  now rewrite (IH Hlf Hcr).
Qed.

Lemma plain_chars s :
  plain s = true ->
  has_char escape_char s = false /\ has_char LF s = false
  /\ has_char CR s = false.
Proof.
  unfold plain. intros H. apply negb_true_iff in H.
  apply orb_false_iff in H as [H Hcr]. apply orb_false_iff in H as [He Hlf].
  now repeat split.
Qed.

(** Plain text at the start of what is styled is found in the result as
    it is, with colours or without. *)
Lemma applyStyle_prefix enabled code p t :
  has_char LF code = false -> has_char CR code = false ->
  plain p = true ->
  includes (applyStyle enabled code (p +:+ t)) p = true.
Proof.
  intros Hlf Hcr Hp. apply plain_chars in Hp as (Hp1 & Hp2 & Hp3).
  unfold applyStyle.
  destruct (negb enabled || String.eqb (p +:+ t) "");
    [apply includes_prefix|].
  cbv zeta. unfold replace_all.
  change (ESC +:+ "[39m") with (String escape_char "[39m").
  rewrite (replace_from_prefix _ _ _ _ _ Hp1).
  destruct (has_char LF (p +:+ t)).
  - rewrite (append_assoc p), <- (append_assoc _ p).
    rewrite reopen_prefix.
    + apply includes_append_r, includes_append_l, includes_refl.
    + rewrite !has_char_append, Hlf, Hp2. reflexivity.
    + rewrite !has_char_append, Hcr, Hp3. reflexivity.
  - apply includes_append_l, includes_append_r, includes_prefix.
Qed.

Lemma applyStyle_includes enabled code s :
  has_char LF code = false -> has_char CR code = false ->
  plain s = true ->
  includes (applyStyle enabled code s) s = true.
Proof.
  intros Hlf Hcr Hs. rewrite <- (append_nil_r s) at 1.
  now apply applyStyle_prefix.
Qed.

Lemma has_char_replace_from c pat rep s :
  has_char c rep = false -> has_char c s = false ->
  forall skip, has_char c (replace_from pat rep skip s) = false.
Proof.
  intros Hrep. induction s as [|a s IH]; intros Hs skip; [reflexivity|].
  cbn [has_char] in Hs. apply orb_false_iff in Hs as [Ha Hs].
  cbn [replace_from]. destruct skip as [|skip]; [|now apply IH].
  destruct (String.prefix pat (String a s)).
  - now rewrite has_char_append, Hrep, IH.
  - cbn [has_char]. now rewrite Ha, IH.
Qed.

Lemma has_char_reopen c open close s :
  has_char c open = false -> has_char c close = false ->
  has_char c s = false ->
  forall within, has_char c (reopen open close within s) = false.
Proof.
  intros Ho Hc. induction s as [|a s IH]; intros Hs within.
  - cbn [reopen]. now destruct within.
  - cbn [has_char] in Hs. apply orb_false_iff in Hs as [Ha Hs].
    cbn [reopen].
    destruct (is_newline a), within; rewrite has_char_append;
      cbn [has_char]; rewrite ?Ho, ?Hc, Ha, (IH Hs); reflexivity.
Qed.

(** A character that is neither in the text nor in the colour codes is
    not in the styled text. *)
Lemma applyStyle_has_char c enabled code s :
  has_char c (ESC +:+ "[" +:+ code +:+ "m" +:+ "[39m") = false ->
  has_char c s = false -> has_char c (applyStyle enabled code s) = false.
Proof.
  intros Hcode Hs.
  rewrite !has_char_append in Hcode.
  apply orb_false_iff in Hcode as [H1 Hcode].
  apply orb_false_iff in Hcode as [H2 Hcode].
  apply orb_false_iff in Hcode as [H3 Hcode].
  apply orb_false_iff in Hcode as [H4 H5].
  assert (has_char c (ESC +:+ "[" +:+ code +:+ "m") = false) as Hopen
    by now rewrite !has_char_append, H1, H2, H3, H4.
  assert (has_char c (ESC +:+ "[39m") = false) as Hclose
    by now rewrite has_char_append, H1, H5.
  unfold applyStyle.
  destruct (negb enabled || String.eqb s ""); [exact Hs|]. cbv zeta.
  set (open := ESC +:+ "[" +:+ code +:+ "m") in *.
  set (close := ESC +:+ "[39m") in *.
  assert (has_char c (open +:+ replace_all close open s +:+ close) = false)
    as Hwrapped.
  { rewrite !has_char_append, Hopen, Hclose. unfold replace_all.
    now rewrite has_char_replace_from. }
  destruct (has_char LF s); [|exact Hwrapped].
  now apply has_char_reopen.
Qed.

Lemma http_error_text_plain status :
  plain ("📡 HTTP Error " +:+ String_of status +:+ ":") = true.
Proof.
  unfold plain. apply negb_true_iff.
  rewrite !has_char_append, !String_of_has_char by reflexivity.
  reflexivity.
Qed.

Lemma http_error_message_includes env url status :
  plain (origin url +:+ pathname url) = true ->
  includes (http_error_message env url status) (origin url +:+ pathname url)
  = true.
Proof.
  intros Hplain. unfold http_error_message. do 2 apply includes_append_l.
  now apply applyStyle_includes.
Qed.

Lemma http_error_message_no_question env url status :
  has_char "?" (origin url) = false -> has_char "?" (pathname url) = false ->
  has_char "?" (http_error_message env url status) = false.
Proof.
  intros Ho Hp. unfold http_error_message, colors_warn, colors_debug.
  rewrite !has_char_append.
  rewrite !applyStyle_has_char; try reflexivity.
  - now rewrite has_char_append, Ho, Hp.
  - rewrite !has_char_append, String_of_has_char by reflexivity.
    reflexivity.
Qed.

Lemma render_transport_error env src timeout timer url response w :
  navigated env src url response ->
  ok response = false -> status response <> 0 ->
  fst (render env src timeout timer w)
  = Throw (JsError (http_error_message env url (status response))).
Proof.
  intros (Hpage & Hexpose & Hurl & Hgoto) Hok Hstatus.
  unfold render, bind. cbn [emit].
  rewrite Hpage. cbn [await ret emit]. rewrite Hexpose. cbn [await ret emit].
  rewrite Hurl. cbn [await ret emit]. rewrite during_await, Hgoto.
  cbn [ret]. rewrite Hok. apply Z.eqb_neq in Hstatus. rewrite Hstatus.
  reflexivity.
Qed.

(** C3.  When the navigation response is not a success and its status is
    not zero, the guarded block throws an error whose message is built
    from the status, the origin and the path of the target.
    [fetchAndWrite] rejects with that error if the release of the
    session succeeds, and with the error of the release if it fails.
    For a URL as the URL Standard parses it the message includes the
    origin followed by the path and does not include the query; it is
    the same for any query.  For
    https://example.org/spec.html?key=SECRET and status 404 the message
    includes https://example.org/spec.html and does not include
    SECRET. *)
Theorem transport_error_excludes_query
    env src out options files url response :
  acquired env ->
  navigated env src url response ->
  ok response = false -> status response <> 0 ->
  let msg := http_error_message env url (status response) in
  (exists w1,
      acquire env options (initial files) = (Normal tt, w1)
      /\ fst (body env src out options w1) = Throw (JsError msg))
  /\ fst (fetchAndWrite env src out options (initial files))
     = Throw (match env_browser_close env with
              | inl _ => JsError msg
              | inr e => e
              end)
  /\ (url_standard url ->
      includes msg (origin url +:+ pathname url) = true)
  /\ (forall url', origin url' = origin url ->
                   pathname url' = pathname url ->
                   http_error_message env url' (status response) = msg)
  /\ (url_standard url -> search url <> "" ->
      includes msg (search url) = false)
  /\ includes (http_error_message env Samples.url 404)
              "https://example.org/spec.html" = true
  /\ includes (http_error_message env Samples.url 404) "SECRET" = false.
Proof.
  intros Hacq Hnav Hok Hstatus msg.
  destruct (fetchAndWrite_acquired env src out options files Hacq)
    as (w1 & Hw1 & _ & _ & Hrun).
  assert (body env src out options w1
          = (Throw (JsError msg),
             snd (render env src (default 300000 (opt_timeout options))
                    (createTimer env (default 300000 (opt_timeout options)))
                    w1))) as Hbody.
  { unfold body, pipeline, bind.
    pose proof (render_transport_error env src
                  (default 300000 (opt_timeout options))
                  (createTimer env (default 300000 (opt_timeout options)))
                  url response w1 Hnav Hok Hstatus) as Hr.
    destruct (render _ _ _ _ w1) as [r w2]. cbn [fst snd] in *.
    now rewrite Hr. }
  repeat split.
  - exists w1. split; [assumption|]. now rewrite Hbody.
  - rewrite Hrun, try_finally_release, Hbody. cbn [fst].
    now destruct (env_browser_close env).
  - intros (_ & _ & _ & Hplain). now apply http_error_message_includes.
  - intros url' Ho Hp. unfold msg, http_error_message. now rewrite Ho, Hp.
  - intros (Ho & Hp & Hs & _) Hne.
    destruct Hs as [Hs|[query Hs]]; [contradiction|].
    destruct (includes msg (search url)) eqn:Hinc; [|reflexivity].
    pose proof (http_error_message_no_question env url (status response)
                  Ho Hp) as Hno.
    assert (has_char "?" msg = true) as Hyes
      by (apply (includes_has_char "?" _ _ Hinc); now rewrite Hs).
    unfold msg in Hyes. congruence.
  - unfold http_error_message, colors_warn, colors_debug.
    destruct (env_colors env); vm_compute; reflexivity.
  - unfold http_error_message, colors_warn, colors_debug.
    destruct (env_colors env); vm_compute; reflexivity.
Qed.

(** *** The output sink *)

Lemma outs_cons e l :
  outs (e :: l) = outs l ++ (if is_output e then [e] else []).
Proof.
  unfold outs. cbn [rev]. rewrite List.filter_app. cbn [List.filter].
  now destruct (is_output e).
Qed.

Lemma outs_app l1 l2 : outs (l1 ++ l2) = outs l2 ++ outs l1.
Proof. unfold outs. now rewrite rev_app_distr, List.filter_app. Qed.

Lemma outs_invoke cbs : outs (rev (List.map EvInvoke cbs)) = [].
Proof.
  unfold outs. rewrite rev_involutive.
  induction cbs as [|cb cbs IH]; [reflexivity | exact IH].
Qed.

Lemma extends_outputs (P : Event -> Prop) w w' :
  (forall e, P e -> is_output e = false) ->
  extends P w w' -> outputs w' = outputs w.
Proof.
  intros HP (new & Hlog & Hnew). unfold outputs, events.
  rewrite Hlog. fold (outs (new ++ log w)). rewrite outs_app.
  assert (outs new = []) as ->; [|apply app_nil_r].
  clear Hlog. induction Hnew as [|e l He _ IH]; [reflexivity|].
  now rewrite outs_cons, IH, (HP e He).
Qed.

Lemma acquire_world env options files w1 :
  acquire env options (initial files) = (Normal tt, w1) ->
  outputs w1 = [] /\ fs w1 = files.
Proof.
  unfold acquire, bind, emit, await.
  destruct (env_mkdtemp env); cbn [ret throw]; [|discriminate].
  destruct (env_launch env) as [[]|]; cbn [ret throw]; [|discriminate].
  intros [= <-]. split; reflexivity.
Qed.

Lemma render_world env src timeout timer w html w' :
  render env src timeout timer w = (Normal html, w') ->
  outputs w' = outputs w /\ fs w' = fs w.
Proof.
  intros Hr. split.
  - pose proof (render_events env src timeout timer w) as H.
    rewrite Hr in H. apply (extends_outputs _ _ _) in H; [exact H|].
    intros []; cbn; intros He; try reflexivity; contradiction.
  - pose proof (render_files env src timeout timer w) as H.
    now rewrite Hr in H.
Qed.

(** C9.  On a run in which every step succeeds, what is written depends
    on the destination alone: for [null] the markup goes to the standard
    output and no file is written; for the empty string nothing is
    written, and no write needs to succeed; for any other string one file
    is written as UTF-8, at the path itself when it is absolute and at the
    path resolved against the working directory otherwise.  The file then
    holds the UTF-8 encoding of the markup, whatever it held before: read
    back, that is the markup with every unpaired surrogate replaced by
    U+FFFD, and so the markup itself when it has none.  In each case
    [fetchAndWrite] fulfils its promise with the markup. *)
Theorem output_sink env src out options files w1 w2 html :
  let timeout := default 300000 (opt_timeout options) in
  acquire env options (initial files) = (Normal tt, w1) ->
  render env src timeout (createTimer env timeout) w1 = (Normal html, w2) ->
  default (inl tt) (opt_beforeWrite options) = inl tt ->
  (forall path, out = Some path -> path <> "" ->
                env_writeFile env (newFilePath env path) = inl tt) ->
  env_page_close env = inl tt ->
  env_browser_close env = inl tt ->
  exists w,
    fetchAndWrite env src out options (initial files) = (Normal html, w)
    /\ match out with
       | None => outputs w = [EvStdoutWrite html] /\ fs w = files
       | Some "" => outputs w = [] /\ fs w = files
       | Some path =>
           let target :=
             if env_isAbsolute env path then path
             else env_resolve env (env_cwd env) path in
           outputs w = [EvWriteFile target html "utf-8"]
           /\ fs w = <[target := utf8_encode html]> files
           /\ fs w !! target = Some (utf8_encode html)
           /\ (Forall code_unit html ->
               utf8_decode (utf8_encode html) = Some (toWellFormed html))
           /\ (Forall code_unit html -> isWellFormed html = true ->
               utf8_decode (utf8_encode html) = Some html)
       end.
Proof.
  intros timeout Hacq Hrender Hhook Hwrite Hpage Hclose.
  destruct (acquire_world _ _ _ _ Hacq) as [Hout1 Hfs1].
  destruct (render_world _ _ _ _ _ _ _ Hrender) as [Hout2 Hfs2].
  rewrite Hout1 in Hout2. rewrite Hfs1 in Hfs2.
  rewrite fetchAndWrite_cut. unfold bind at 1. rewrite Hacq.
  rewrite try_finally_release, Hclose.
  unfold body, pipeline, bind at 1. fold timeout. rewrite Hrender.
  unfold deliver, bind. cbn [emit]. rewrite during_await, Hhook.
  unfold outputs, events in *. fold (outs (log w2)) in Hout2.
  destruct out as [[|a path]|].
  - cbn [ret emit]. rewrite during_await, Hpage.
    eexists; split; [reflexivity|]. cbn [released log fs].
    match goal with |- List.filter is_output (rev ?l) = _ /\ _ =>
      fold (outs l) end.
    repeat (rewrite outs_cons || rewrite outs_app || rewrite outs_invoke).
    rewrite Hout2. split; [reflexivity | assumption].
  - unfold writeTo, bind. cbn [emit]. rewrite during_run.
    rewrite (Hwrite _ eq_refl ltac:(discriminate)). cbn [store]. cbn [emit].
    rewrite during_await, Hpage.
    eexists; split; [reflexivity|]. cbn [released log fs].
    unfold newFilePath. rewrite Hfs2.
    split; [|split; [reflexivity|split; [apply lookup_insert_eq|split]]].
    + match goal with |- List.filter is_output (rev ?l) = _ =>
        fold (outs l) end.
      repeat (rewrite outs_cons || rewrite outs_app || rewrite outs_invoke).
      rewrite Hout2. reflexivity.
    + apply utf8_decode_encode.
    + apply utf8_round_trip.
  - cbn [emit]. rewrite during_await, Hpage.
    eexists; split; [reflexivity|]. cbn [released log fs].
    split; [|assumption].
    match goal with |- List.filter is_output (rev ?l) = _ => fold (outs l) end.
    repeat (rewrite outs_cons || rewrite outs_app || rewrite outs_invoke).
    rewrite Hout2. reflexivity.
Qed.

End DocWriterFacts.

(** ** The theorems on sample runs *)

Import URI JS DocWriter.

Lemma version_gate_witness :
  env_race Samples.env_success = ReadyFirst (inl tt)
  /\ (lex_lt (20, 9, 7)%N (20, 10, 0)%N
      <-> select (detected (20, 9, 7)%N) = Legacy).
Proof.
  split; [reflexivity|].
  exact (proj1 (version_gate Samples.env_success (20, 9, 7)%N 1000
                  (initial ∅) eq_refl)).
Defined.

Lemma session_released_witness :
  acquired Samples.env_not_found
  /\ count_close
       (events (snd (fetchAndWrite Samples.env_not_found Samples.src
                       (Some "") Samples.no_options (initial ∅))))
     = 1%nat.
Proof.
  assert (acquired Samples.env_not_found) as Hacq
    by (split; [eexists|]; reflexivity).
  split; [exact Hacq|].
  exact (proj1 (session_released_unless_exit Samples.env_not_found
                  Samples.src (Some "") Samples.no_options ∅ Hacq)).
Defined.

(** The run in which writing the file fails ends without a release. *)
Lemma session_not_released_on_write_failure :
  acquired Samples.env_write_fails
  /\ ~ released_once Samples.env_write_fails Samples.src (Some "out.html")
         Samples.no_options ∅.
Proof.
  split; [split; [eexists|]; reflexivity|].
  unfold released_once. vm_compute. discriminate.
Qed.

Lemma transport_error_witness :
  includes
    (http_error_message Samples.env_not_found Samples.url 404)
    "https://example.org/spec.html" = true
  /\ includes
       (http_error_message Samples.env_not_found Samples.url 404)
       "?key=SECRET" = false
  /\ fst (fetchAndWrite Samples.env_not_found Samples.src (Some "")
            Samples.no_options (initial ∅))
     = Throw (JsError
                (http_error_message Samples.env_not_found Samples.url 404)).
Proof.
  assert (acquired Samples.env_not_found) as Hacq
    by (split; [eexists|]; reflexivity).
  assert (navigated Samples.env_not_found Samples.src Samples.url
            {| ok := false; status := 404 |}) as Hnav
    by (repeat split).
  assert (url_standard Samples.url) as Hstd.
  { split; [reflexivity|]. split; [reflexivity|].
    split; [right; eexists|]; reflexivity. }
  destruct (transport_error_excludes_query Samples.env_not_found
              Samples.src (Some "") Samples.no_options ∅ Samples.url
              {| ok := false; status := 404 |} Hacq Hnav eq_refl
              ltac:(discriminate))
    as (_ & Hrun & Hin & _ & Hquery & _).
  split; [exact (Hin Hstd)|]. split.
  - apply Hquery; [exact Hstd | discriminate].
  - exact Hrun.
Defined.

(** The server answers 404 and the release fails: the promise is
    rejected with the error of the release, not with the transport
    error. *)
Lemma transport_error_replaced_by_release_failure :
  ~ transport_error_reported Samples.env_not_found_close_fails Samples.src
      (Some "") Samples.no_options ∅.
Proof.
  intros H.
  specialize (H Samples.url {| ok := false; status := 404 |}).
  assert (navigated Samples.env_not_found_close_fails Samples.src
            Samples.url {| ok := false; status := 404 |}) as Hnav
    by (repeat split).
  specialize (H Hnav eq_refl ltac:(discriminate)).
  vm_compute in H. discriminate H.
Qed.




Lemma sample_goto :
  In (EvGoto Samples.src 300000)
     (events (snd (fetchAndWrite Samples.env_success Samples.src (Some "")
                     Samples.no_options (initial ∅)))).
Proof. vm_compute. do 5 right. left. reflexivity. Qed.

Lemma navigation_bound_witness :
  In (EvGoto Samples.src 300000)
     (events (snd (fetchAndWrite Samples.env_success Samples.src (Some "")
                     Samples.no_options (initial ∅))))
  /\ 300000 = default 300000 (opt_timeout Samples.no_options).
Proof.
  split; [exact sample_goto|].
  exact (navigation_bounded_by_timeout Samples.env_success Samples.src
           (Some "") Samples.no_options ∅ Samples.src 300000 sample_goto).
Defined.

(** Navigation begins 5000 ms after the timer was created, and is still
    given 300000 ms. *)
Lemma navigation_not_bounded_by_remaining :
  ~ navigation_bounded_by_remaining Samples.env_success Samples.src
      (Some "") Samples.no_options ∅.
Proof.
  intros H. specialize (H Samples.src 300000 sample_goto).
  vm_compute in H. discriminate H.
Qed.

Lemma release_failure_witness :
  acquired Samples.env_close_fails
  /\ fst (fetchAndWrite Samples.env_close_fails Samples.src (Some "")
            Samples.no_options (initial ∅))
     = Throw Samples.close_error.
Proof.
  assert (acquired Samples.env_close_fails) as Hacq
    by (split; [eexists|]; reflexivity).
  split; [exact Hacq|].
  destruct (release_failure_replaces_outcome Samples.env_close_fails
              Samples.src (Some "") Samples.no_options ∅ Hacq)
    as (w1 & Hw1 & ->).
  injection Hw1 as <-. reflexivity.
Defined.

(** The markup was extracted and the release failed: the promise is
    rejected with the error of the release. *)
Lemma release_failure_masks_result :
  ~ release_failure_contained Samples.env_close_fails Samples.src
      (Some "") Samples.no_options ∅.
Proof.
  intros H. specialize (H _ _ eq_refl eq_refl).
  vm_compute in H. discriminate H.
Qed.

Lemma data_url_round_trip_witness :
  is_word_mime "text/html" = true
  /\ Forall code_unit Samples.markup
  /\ rsDocToDataURL "text/html" Samples.markup = Some Samples.dataURL
  /\ decodeDataURL Samples.dataURL = Some Samples.markup.
Proof.
  assert (Forall code_unit Samples.markup) as Hunits
    by (repeat constructor; unfold code_unit; lia).
  split; [reflexivity|]. split; [exact Hunits|]. split; [reflexivity|].
  exact (data_url_round_trip "text/html" Samples.markup Samples.dataURL
           eq_refl Hunits eq_refl).
Defined.

Lemma output_sink_witness :
  exists w,
    fetchAndWrite Samples.env_success Samples.src (Some "out.html")
      Samples.no_options (initial ∅)
    = (Normal Samples.markup, w)
    /\ outputs w
       = [EvWriteFile "/home/user/out.html" Samples.markup "utf-8"]
    /\ fs w !! "/home/user/out.html" = Some (utf8_encode Samples.markup).
Proof.
  assert (acquire Samples.env_success Samples.no_options (initial ∅)
          = (Normal tt, Samples.world_acquired)) as Hacq
    by (vm_compute; reflexivity).
  assert (render Samples.env_success Samples.src 300000
            (createTimer Samples.env_success 300000) Samples.world_acquired
          = (Normal Samples.markup, Samples.world_rendered)) as Hrender
    by (vm_compute; reflexivity).
  destruct (output_sink Samples.env_success Samples.src (Some "out.html")
              Samples.no_options ∅ _ _ Samples.markup
              Hacq Hrender eq_refl (fun _ _ _ => eq_refl) eq_refl eq_refl)
    as (w & Hrun & Hout & _ & Hfile & _).
  exists w. split; [exact Hrun|]. split; [exact Hout | exact Hfile].
Defined.

(** An old version of ReSpec exports markup with half of a surrogate
    pair: the promise is fulfilled with that markup, and the file holds
    U+FFFD in place of the surrogate. *)
Lemma file_differs_for_unpaired_surrogate :
  ~ file_identical_to_result Samples.env_half_pair Samples.src "out.html"
      Samples.no_options ∅.
Proof.
  intros H.
  destruct (H Samples.half_pair Samples.world_half_pair)
    as (content & Hfile & Hread); [vm_compute; reflexivity|].
  vm_compute in Hfile. injection Hfile as <-.
  vm_compute in Hread. discriminate Hread.
Qed.

Lemma report_number_witness :
  Samples.examples !! 2%nat
  = Some (Examples.mkElement Examples.pre true "" "bad" "x = 1" false)
  /\ exists p report n,
       Examples.run "Example" Samples.addId Samples.examples !! 2%nat
       = Some p
       /\ Examples.pub p = Some report
       /\ Examples.bdi (Examples.marker p) = " " +:+ String_of n
       /\ Examples.number report = n - 1
       /\ Examples.number report
          = Examples.counter_after 0 (take 2 Samples.examples).
Proof.
  split; [reflexivity|].
  exact (report_number_is_marker_number_minus_one "Example" Samples.addId
           Samples.examples 2 _ eq_refl eq_refl).
Defined.

(** * Further properties *)

(** ** src/core/examples.js: the stream of reports *)

Section ExamplesReports.
Import Examples.
Variable l10n_example : string.
Variable addId : string -> string -> string -> string.

Lemma forEach_step number example rest :
  forEach l10n_example addId number (example :: rest)
  = snd (step l10n_example addId number example)
      :: forEach l10n_example addId
           (if increments example then number + 1 else number) rest.
Proof. now rewrite forEach_cons, step_counter. Qed.

Lemma forEach_app number l1 l2 :
  forEach l10n_example addId number (l1 ++ l2)
  = forEach l10n_example addId number l1
      ++ forEach l10n_example addId (counter_after number l1) l2.
Proof.
  revert number. induction l1 as [|e l1 IH]; intros number.
  - cbn [app forEach]. unfold counter_after. cbn. now rewrite Z.add_0_r.
  - cbn [app]. rewrite !forEach_step, IH. cbn [app]. do 3 f_equal.
    unfold counter_after. cbn [List.filter].
    destruct (increments e); cbn [List.length]; lia.
Qed.

Lemma length_forEach number examples :
  List.length (forEach l10n_example addId number examples)
  = List.length examples.
Proof.
  revert number. induction examples as [|e rest IH]; intros number;
    [reflexivity|].
  rewrite forEach_step. cbn [List.length]. now rewrite IH.
Qed.

Lemma omap_pub_cons (p : Processed) (l : list Processed) :
  omap pub (p :: l)
  = match pub p with Some r => r :: omap pub l | None => omap pub l end.
Proof. reflexivity. Qed.

(** What an element that is not counted leaves behind. *)
Lemma step_uncounted number example :
  increments example = false ->
  pub (snd (step l10n_example addId number example)) = None
  /\ bdi (marker (snd (step l10n_example addId number example))) = "".
Proof.
  unfold step, increments, makeTitle.
  destruct (localName example); [discriminate|].
  intros H. apply negb_false_iff in H. rewrite H. split; reflexivity.
Qed.

Lemma step_counted number example :
  increments example = true ->
  exists r, pub (snd (step l10n_example addId number example)) = Some r
            /\ Examples.number r = number.
Proof.
  unfold step, increments, makeTitle.
  destruct (localName example); intros H.
  - eexists. split; reflexivity.
  - apply negb_true_iff in H. rewrite H. eexists. split; reflexivity.
Qed.

Lemma published_numbers_from number examples :
  List.map Examples.number
    (omap pub (forEach l10n_example addId number examples))
  = List.map (fun k => number + Z.of_nat k)
      (seq 0 (List.length (List.filter increments examples))).
Proof.
  revert number. induction examples as [|e rest IH]; intros number.
  - reflexivity.
  - rewrite forEach_step, omap_pub_cons. cbn [List.filter].
    destruct (increments e) eqn:He.
    + destruct (step_counted number e He) as (r & -> & Hr).
      cbn [List.map List.length seq]. rewrite IH, Hr, Z.add_0_r. f_equal.
      rewrite <- seq_shift, List.map_map. apply List.map_ext.
      intros k. lia.
    + destruct (step_uncounted number e He) as [-> _]. apply IH.
Qed.

(** X1.  The reports that [run] publishes carry the numbers 0, 1, 2, ...
    in document order, one for each element that is counted (an aside, or
    a pre outside of every aside), without a gap and without a repeat. *)
Theorem published_numbers_consecutive (examples : list Element) :
  List.map Examples.number (published l10n_example addId examples)
  = List.map Z.of_nat
      (seq 0 (List.length (List.filter increments examples))).
Proof. unfold published, run. now rewrite published_numbers_from. Qed.

(** X2.  A pre example inside an aside gets a marker without a number and
    is not published, and the reports of all other examples are what they
    would be if the element were not in the document. *)
Theorem nested_pre_is_transparent (before after : list Element)
    (example : Element) :
  increments example = false ->
  published l10n_example addId (before ++ example :: after)
  = published l10n_example addId (before ++ after)
  /\ exists p,
       run l10n_example addId (before ++ example :: after)
         !! List.length before = Some p
       /\ pub p = None /\ bdi (marker p) = "".
Proof.
  intros He. unfold published, run.
  rewrite !forEach_app, forEach_step, He.
  destruct (step_uncounted (counter_after 0 before) example He)
    as [Hpub Hbdi].
  split.
  - rewrite !omap_app, omap_pub_cons. now rewrite Hpub.
  - eexists. split; [|split; [exact Hpub | exact Hbdi]].
    rewrite lookup_app_r, length_forEach by (rewrite length_forEach; lia).
    now rewrite Nat.sub_diag.
Qed.

End ExamplesReports.

(** ** The URI builtins: where encoding fails, and what it produces *)

Section URIMore.
Import URI.

Ltac bools :=
  unfold between in * |-;
  repeat match goal with
    | H : _ && _ = true |- _ => apply andb_true_iff in H; destruct H
    | H : _ || _ = false |- _ => apply orb_false_iff in H; destruct H
    | H : (_ <? _) = true |- _ => apply Z.ltb_lt in H
    | H : (_ <? _) = false |- _ => apply Z.ltb_ge in H
    | H : (_ <=? _) = true |- _ => apply Z.leb_le in H
    | H : (_ <=? _) = false |- _ => apply Z.leb_gt in H
    end.

Lemma encoded_well_formed_bounded (n : nat) :
  forall s : DOMString,
    (List.length s <= n)%nat ->
    forall e, encodeURIComponent s = Some e -> isWellFormed s = true.
Proof.
  induction n as [|n IH]; intros s Hlen e He.
  - destruct s; [reflexivity | simpl in Hlen; lia].
  - destruct s as [|c rest]; [reflexivity|].
    simpl in Hlen. cbn [isWellFormed encodeURIComponent] in *.
    destruct (uriUnescaped c) eqn:Hun.
    { apply unescaped_ascii in Hun. unfold is_trail, is_lead.
      rewrite !between_false by lia.
      destruct (encodeURIComponent rest) eqn:Hr; [|discriminate].
      apply (IH rest) with (e := d); [lia | assumption]. }
    destruct (is_trail c); [discriminate|].
    destruct (is_lead c).
    + destruct rest as [|d rest']; [discriminate|].
      destruct (is_trail d); [|discriminate]. cbn [andb].
      destruct (encodeURIComponent rest') eqn:Hr; [|discriminate].
      simpl in Hlen. apply (IH rest') with (e := d0); [lia | assumption].
    + destruct (encodeURIComponent rest) eqn:Hr; [|discriminate].
      apply (IH rest) with (e := d); [lia | assumption].
Qed.

(** [encodeURIComponent] throws exactly on the strings that have an
    unpaired surrogate: it is defined on a string if and only if the
    string is well formed. *)
Theorem encode_defined_iff_well_formed (s : DOMString) :
  (exists e, encodeURIComponent s = Some e) <-> isWellFormed s = true.
Proof.
  split.
  - intros [e He]. exact (encoded_well_formed_bounded _ s (le_n _) e He).
  - apply encode_defined.
Qed.

Lemma hexdigit_unescaped n : 0 <= n < 16 -> uriUnescaped (hexdigit n) = true.
Proof.
  intros Hn. replace n with (Z.of_nat (Z.to_nat n)) by lia.
  assert (Z.to_nat n < 16)%nat as Hk by lia.
  revert Hk. generalize (Z.to_nat n) as k. intros k Hk.
  do 16 (destruct k as [|k]; [reflexivity|]). lia.
Qed.

Lemma percent_safe b :
  0 <= b < 256 ->
  Forall (fun c => uriUnescaped c = true \/ c = 37) (percent b).
Proof.
  intros Hb. unfold percent.
  constructor; [now right|].
  constructor; [left; apply hexdigit_unescaped; Z.div_mod_to_equations; lia|].
  constructor; [left; apply hexdigit_unescaped; Z.div_mod_to_equations; lia|].
  constructor.
Qed.

Lemma utf8_octets cp :
  0 <= cp < 1114112 -> Forall (fun b => 0 <= b < 256) (utf8 cp).
Proof.
  intros Hcp. unfold utf8.
  destruct (cp <? 128) eqn:H1; [|destruct (cp <? 2048) eqn:H2;
                                  [|destruct (cp <? 65536) eqn:H3]];
    bools; repeat constructor; Z.div_mod_to_equations; lia.
Qed.

Lemma escape_safe cp :
  0 <= cp < 1114112 ->
  Forall (fun c => uriUnescaped c = true \/ c = 37) (escape cp).
Proof.
  intros Hcp. unfold escape.
  pose proof (utf8_octets cp Hcp) as Hoct.
  induction Hoct as [|b l Hb _ IH]; [constructor|].
  cbn [flat_map]. apply Forall_app. split; [now apply percent_safe | exact IH].
Qed.

Lemma encoded_alphabet_bounded (n : nat) :
  forall s : DOMString,
    (List.length s <= n)%nat -> Forall code_unit s ->
    forall e, encodeURIComponent s = Some e ->
              Forall (fun c => uriUnescaped c = true \/ c = 37) e.
Proof.
  induction n as [|n IH]; intros s Hlen Hwf e He.
  - destruct s; [|simpl in Hlen; lia]. injection He as <-. constructor.
  - destruct s as [|c rest]; [injection He as <-; constructor|].
    simpl in Hlen. inversion Hwf as [|? ? Hc Hrest]; subst.
    cbn [encodeURIComponent] in He.
    destruct (uriUnescaped c) eqn:Hun.
    { destruct (encodeURIComponent rest) as [r|] eqn:Hr; [|discriminate].
      injection He as <-. constructor; [now left|].
      apply (IH rest); [lia | assumption | assumption]. }
    destruct (is_trail c) eqn:Htr; [discriminate|].
    destruct (is_lead c) eqn:Hld.
    { destruct rest as [|d rest']; [discriminate|].
      destruct (is_trail d) eqn:Htd; [|discriminate].
      destruct (encodeURIComponent rest') as [r|] eqn:Hr; [|discriminate].
      injection He as <-. simpl in Hlen. inversion Hrest; subst.
      apply Forall_app. split.
      - apply escape_safe.
        destruct (UTF16_pair c d Hld Htd) as [Hcp _]. lia.
      - apply (IH rest'); [lia | assumption | assumption]. }
    destruct (encodeURIComponent rest) as [r|] eqn:Hr; [|discriminate].
    injection He as <-. apply Forall_app. split.
    + apply escape_safe. unfold code_unit in Hc. lia.
    + apply (IH rest); [lia | assumption | assumption].
Qed.

(** Whatever [encodeURIComponent] returns is written in the
    unreserved characters (letters, digits and [-_.!~*'()]) and the
    percent sign: no other character of the input survives unescaped. *)
Theorem encoded_alphabet (s e : DOMString) :
  Forall code_unit s ->
  encodeURIComponent s = Some e ->
  Forall (fun c => uriUnescaped c = true \/ c = 37) e.
Proof. intros. now apply (encoded_alphabet_bounded (List.length s) s). Qed.

End URIMore.

(** ** src/core/linter-rules/local-refs-exist.js *)

Section LocalRefsFacts.
Import URI LocalRefs.

(** X3.  A link whose fragment is the percent-encoding of an id or of a
    name that the document has is not a broken link, whatever the id is
    made of. *)
Theorem fragment_of_existing_id_not_broken
    (doc : Document) (elem : Anchor) (id fragment : DOMString) :
  Forall code_unit id ->
  encodeURIComponent id = Some fragment ->
  hash elem = 35 :: fragment ->
  (id ∈ ids doc) \/ (id ∈ names doc) ->
  isBrokenHyperlink doc elem = Some false.
Proof.
  intros Hid Henc Hhash Hin. unfold isBrokenHyperlink. rewrite Hhash.
  destruct (_ && _); [reflexivity|].
  cbn [substring1]. rewrite (encode_decode id fragment Hid Henc).
  destruct Hin as [Hin|Hin].
  - now rewrite (bool_decide_eq_true_2 _ Hin).
  - rewrite (bool_decide_eq_true_2 _ Hin). now rewrite andb_false_r.
Qed.

Lemma filter_throwing_none {A} (f : A -> option bool) (xs : list A) :
  filter_throwing f xs = None <-> exists x, x ∈ xs /\ f x = None.
Proof.
  induction xs as [|x rest IH]; cbn [filter_throwing].
  - split; [discriminate|]. intros (x & Hx & _). inversion Hx.
  - destruct (f x) as [keep|] eqn:Hfx.
    + destruct (filter_throwing f rest) as [kept|].
      * split; [discriminate|]. intros (y & Hy & Hfy).
        apply elem_of_cons in Hy as [->|Hy]; [congruence|].
        assert (Some kept = None) as Hnone by (apply (proj2 IH); eauto).
        discriminate Hnone.
      * split; [|reflexivity]. intros _.
        destruct (proj1 IH eq_refl) as (y & Hy & Hfy).
        exists y. split; [now apply list_elem_of_further | assumption].
    + split; [|reflexivity]. intros _. exists x.
      split; [apply list_elem_of_here | assumption].
Qed.

Lemma filter_throwing_some {A} (f : A -> option bool) (xs kept : list A) :
  filter_throwing f xs = Some kept ->
  kept = List.filter
           (fun x => match f x with Some true => true | _ => false end) xs
  /\ forall x, x ∈ xs -> exists b, f x = Some b.
Proof.
  revert kept. induction xs as [|x rest IH]; cbn [filter_throwing];
    intros kept H.
  - injection H as <-. split; [reflexivity|]. intros x Hx. inversion Hx.
  - destruct (f x) as [keep|] eqn:Hfx; [|discriminate].
    destruct (filter_throwing f rest) as [kept'|]; [|discriminate].
    injection H as <-. destruct (IH kept' eq_refl) as [-> Hall].
    split.
    + cbn [List.filter]. rewrite Hfx. now destruct keep.
    + intros y Hy. apply elem_of_cons in Hy as [->|Hy]; eauto.
Qed.

Lemma isBrokenHyperlink_throws doc elem :
  isBrokenHyperlink doc elem = None
  <-> looked_up doc elem = true
      /\ decodeURIComponent (substring1 (hash elem)) = None.
Proof.
  unfold isBrokenHyperlink, looked_up.
  destruct (hash elem) as [|c fragment] eqn:Hh.
  - split; [discriminate | intros [H _]; discriminate H].
  - destruct (_ && _); cbn [negb].
    + split; [discriminate | intros [H _]; discriminate H].
    + destruct (decodeURIComponent (substring1 (c :: fragment))).
      * split; [discriminate | intros [_ H]; discriminate H].
      * split; [now split | reflexivity].
Qed.

(** X4.  [run] lets a URIError escape exactly when the rule is switched on
    and some link whose fragment it looks up has a fragment that is not
    valid percent-encoding.  With the rule off it returns without a
    warning, whatever the links are. *)
Theorem run_throws_iff_malformed_fragment (lint : Lint) (doc : Document) :
  (run lint doc = URIError
   <-> enabled lint = true
       /\ exists elem, elem ∈ anchors doc /\ looked_up doc elem = true
            /\ decodeURIComponent (substring1 (hash elem)) = None)
  /\ (enabled lint = false -> run lint doc = Returned None).
Proof.
  unfold run. destruct (enabled lint); cbn [negb].
  - split; [|discriminate].
    destruct (filter_throwing _ _) as [[|a kept]|] eqn:Hf.
    + split; [discriminate|]. intros (_ & elem & Hin & Hbad).
      apply isBrokenHyperlink_throws in Hbad.
      assert (filter_throwing (isBrokenHyperlink doc) (anchors doc) = None)
        as Hnone by (apply filter_throwing_none; eauto).
      congruence.
    + split; [discriminate|]. intros (_ & elem & Hin & Hbad).
      apply isBrokenHyperlink_throws in Hbad.
      assert (filter_throwing (isBrokenHyperlink doc) (anchors doc) = None)
        as Hnone by (apply filter_throwing_none; eauto).
      congruence.
    + split; [|reflexivity]. intros _. split; [reflexivity|].
      apply filter_throwing_none in Hf as (elem & Hin & Hbad).
      apply isBrokenHyperlink_throws in Hbad. eauto.
  - split; [|reflexivity].
    split; [discriminate | intros [H _]; discriminate H].
Qed.

(** X5.  The warning that [run] shows lists the broken links in document
    order, and is shown only if there is one.  Links without a fragment
    and same-origin links to another path are never in it; every link in
    it has a fragment that decodes to a string that is neither an id nor
    a name of the document. *)
Theorem warning_lists_broken_links
    (lint : Lint) (doc : Document) (w : Warning) :
  run lint doc = Returned (Some w) ->
  enabled lint = true
  /\ elements w <> []
  /\ elements w
     = List.filter
         (fun a => match isBrokenHyperlink doc a with
                   | Some true => true
                   | _ => false
                   end) (anchors doc)
  /\ forall elem, elem ∈ elements w ->
       elem ∈ anchors doc /\ looked_up doc elem = true
       /\ exists id, decodeURIComponent (substring1 (hash elem)) = Some id
                     /\ (id ∉ ids doc) /\ (id ∉ names doc).
Proof.
  unfold run. destruct (enabled lint); cbn [negb]; [|discriminate].
  destruct (filter_throwing _ _) as [[|a kept]|] eqn:Hf; try discriminate.
  intros [= <-]. cbn [elements].
  destruct (filter_throwing_some _ _ _ Hf) as [Heq _].
  split; [reflexivity|]. split; [discriminate|]. split; [exact Heq|].
  intros elem Hin. rewrite Heq in Hin.
  apply list_elem_of_In, List.filter_In in Hin as [Hin Hbroken].
  split; [now apply list_elem_of_In|].
  unfold isBrokenHyperlink, looked_up in *.
  destruct (hash elem) as [|c fragment]; [discriminate|].
  destruct (_ && _); [discriminate|]. split; [reflexivity|].
  destruct (decodeURIComponent _) as [id|]; [|discriminate].
  exists id. split; [reflexivity|].
  destruct (bool_decide (id ∈ ids doc)) eqn:H1; [discriminate|].
  destruct (bool_decide (id ∈ names doc)) eqn:H2; [discriminate|].
  split; [now apply bool_decide_eq_false in H1
         | now apply bool_decide_eq_false in H2].
Qed.

(** X6.  Only the combination of the same origin with another path takes a
    link out of the check: the fragment of a link to another origin is
    looked up in this document as if the link pointed into it. *)
Theorem other_origin_looked_up_locally (doc : Document) (elem : Anchor) :
  origin elem <> base_origin doc ->
  isBrokenHyperlink doc elem
  = isBrokenHyperlink doc
      {| hash := hash elem; origin := base_origin doc;
         pathname := base_pathname doc |}.
Proof.
  intros Hne. unfold isBrokenHyperlink. cbn [hash origin pathname].
  apply String.eqb_neq in Hne. rewrite Hne, !String.eqb_refl.
  reflexivity.
Qed.

End LocalRefsFacts.

Lemma fragment_of_existing_id_witness :
  Forall URI.code_unit Samples.cafe
  /\ URI.encodeURIComponent Samples.cafe = Some (URI.units "caf%C3%A9")
  /\ LocalRefs.isBrokenHyperlink (Samples.document Samples.links)
       Samples.link_cafe = Some false.
Proof.
  assert (Forall URI.code_unit Samples.cafe) as Hunits
    by (repeat constructor; unfold URI.code_unit; lia).
  split; [exact Hunits|]. split; [reflexivity|].
  apply (fragment_of_existing_id_not_broken (Samples.document Samples.links)
           Samples.link_cafe Samples.cafe (URI.units "caf%C3%A9") Hunits
           eq_refl eq_refl).
  left. cbn. apply list_elem_of_further, list_elem_of_here.
Defined.

Lemma warning_lists_broken_links_witness :
  exists w,
    LocalRefs.run Samples.lint_on (Samples.document Samples.links)
    = LocalRefs.Returned (Some w)
    /\ LocalRefs.elements w = [Samples.link_missing; Samples.link_elsewhere].
Proof.
  eexists. split; [vm_compute; reflexivity|].
  destruct (warning_lists_broken_links Samples.lint_on
              (Samples.document Samples.links) _ eq_refl)
    as (_ & _ & -> & _).
  vm_compute. reflexivity.
Defined.

Lemma other_origin_witness :
  LocalRefs.origin Samples.link_elsewhere
  <> LocalRefs.base_origin (Samples.document Samples.links)
  /\ LocalRefs.isBrokenHyperlink (Samples.document Samples.links)
       Samples.link_elsewhere = Some true.
Proof.
  assert (LocalRefs.origin Samples.link_elsewhere
          <> LocalRefs.base_origin (Samples.document Samples.links)) as Hne
    by discriminate.
  split; [exact Hne|].
  rewrite (other_origin_looked_up_locally _ _ Hne). vm_compute. reflexivity.
Defined.

(** ** tools/respecDocWriter.js: the parts of a run *)

Section DocWriterParts.

(** X8.  Of the events dispatched on the document, in whatever mix, the
    bridge turns those named respecerror and respecwarn into one callback
    each, in the order raised; an event of any other name runs no
    callback and does not disturb the others. *)
Theorem bridge_forwards_only_diagnostics (raised : list DomEvent) :
  bridge raised = omap callback_of raised.
Proof.
  unfold bridge. induction raised as [|e rest IH]; [reflexivity|].
  cbn [flat_map]. rewrite flat_map_app, callback_of_dispatch, IH.
  change (omap callback_of (e :: rest))
    with (match callback_of e with
          | Some cb => cb :: omap callback_of rest
          | None => omap callback_of rest
          end).
  now destruct (callback_of e).
Qed.

(** X9.  What [createTimer] reports as remaining is never negative, does
    not grow while the clock advances, is the whole duration when read at
    the moment of creation, and is zero from the end of the duration on. *)
Theorem remaining_budget (timer : Timer) (now later : Z) :
  now <= later ->
  0 <= remaining timer later <= remaining timer now
  /\ (0 <= duration timer -> remaining timer (start timer) = duration timer)
  /\ (start timer + duration timer <= now -> remaining timer now = 0).
Proof. unfold remaining. lia. Qed.

(** X10.  [writeTo] changes the file at the target path and no other file:
    the file then holds the UTF-8 encoding of the data.  When the write
    fails it changes no file at all, reports on the console and ends the
    process with exit code 1. *)
Theorem writeTo_frame env outPath data w :
  let target := newFilePath env outPath in
  match env_writeFile env target with
  | inl _ =>
      fst (writeTo env outPath data w) = Normal tt
      /\ fs (snd (writeTo env outPath data w)) !! target
         = Some (utf8_encode data)
      /\ forall other, other <> target ->
           fs (snd (writeTo env outPath data w)) !! other = fs w !! other
  | inr _ =>
      writeTo env outPath data w
      = (Exit 1,
         {| log := EvProcessExit 1 :: EvConsoleError
                     :: rev (List.map EvInvoke
                               (bridge (env_emitted env DuringWrite)))
                     ++ EvWriteFile target data "utf-8" :: log w;
            fs := fs w |})
  end.
Proof.
  intros target. unfold writeTo. fold target. rewrite bind_emit, during_run.
  destruct (env_writeFile env target) as [[]|err]; [|reflexivity].
  cbn [store fst snd fs]. split; [reflexivity|]. split.
  - apply lookup_insert_eq.
  - intros other Hne. now apply lookup_insert_ne.
Qed.

(** X11.  When the profile directory cannot be made, or the browser cannot
    be launched, [fetchAndWrite] rejects with that error and does nothing
    else: no page is opened, nothing is navigated to or written, and
    [browser.close()] is not called. *)
Theorem acquisition_failure_is_fatal env src out options files e :
  env_mkdtemp env = inr e
  \/ (exists dir, env_mkdtemp env = inl dir) /\ env_launch env = inr e ->
  let run := fetchAndWrite env src out options (initial files) in
  fst run = Throw e
  /\ fs (snd run) = files
  /\ Forall (fun ev => match ev with
                       | EvMkdtemp _ | EvLaunch _ _ _ => True
                       | _ => False
                       end) (events (snd run)).
Proof.
  intros H run. subst run. rewrite fetchAndWrite_cut. unfold bind at 1.
  unfold acquire, bind, emit, await.
  destruct H as [Hdir|[[dir Hdir] Hlaunch]]; rewrite Hdir; cbn [ret throw].
  - repeat split. cbn. repeat constructor.
  - rewrite Hlaunch. repeat split. cbn. repeat constructor.
Qed.

(** X12.  A navigation response is let through when it is a success or its
    status is zero, whatever [ok()] says then: no transport error is
    thrown and the run goes on to check that the document is a ReSpec
    document. *)
Theorem accepted_response_is_let_through
    env src timeout timer url response w :
  navigated env src url response ->
  ok response = true \/ status response = 0 ->
  render env src timeout timer w
  = (checkIfReSpec env ;; generateHTML env url timer)
      {| log := log_navigated env url timeout w; fs := fs w |}.
Proof.
  intros Hnav Hacc. apply (render_accepted _ _ _ _ _ response); [assumption|].
  unfold accepted. destruct Hacc as [->| ->]; [reflexivity|].
  apply orb_true_r.
Qed.

(** X13.  A document that has no ReSpec script in its head and, two
    seconds after it is complete, no element with the id respec-ui, is
    rejected with the message that it does not seem to be a ReSpec
    document.  The run stops there: it does not wait for respecVersion,
    evaluate the version or wait for readiness. *)
Theorem not_a_respec_document_is_rejected
    env src timeout timer url response w :
  navigated env src url response ->
  accepted response = true ->
  env_head_script env = false ->
  env_respec_ui env = false ->
  render env src timeout timer w
  = (Throw (JsError (not_respec_message env)),
     {| log := EvSetTimeout 2000
                 :: rev (List.map EvInvoke
                           (bridge (env_emitted env DuringIsRespec)))
                 ++ EvEvaluate "isRespec" :: log_navigated env url timeout w;
        fs := fs w |}).
Proof.
  intros Hnav Hacc Hhead Hui.
  rewrite (render_accepted _ _ _ _ _ _ _ Hnav Hacc).
  unfold checkIfReSpec, isRespec. rewrite Hhead, Hui.
  unfold bind at 1 2. rewrite bind_emit, during_run. reflexivity.
Qed.

Lemma generate_error_message_plain env url version cause :
  env_colors env = false ->
  generate_error_message env url version cause
  = nl +:+ "😭  Sorry, there was an error generating the HTML. Please report this issue!"
       +:+ nl +:+ generate_error_details env url version cause.
Proof.
  intros Hoff. unfold generate_error_message, colors_debug, applyStyle.
  now rewrite Hoff.
Qed.

Lemma generate_error_message_includes env url version cause :
  let msg := generate_error_message env url version cause in
  (plain (href url) = true ->
   includes msg ("Specification: " +:+ href url) = true)
  /\ (env_colors env = false ->
      includes msg ("ReSpec version: " +:+ join (env_big env) "." version)
      = true)
  /\ (env_colors env = false -> truthy cause = true ->
      includes msg (env_stack env cause) = true).
Proof.
  intros msg. subst msg. repeat split.
  - intros Hplain. unfold generate_error_message, colors_debug.
    do 3 apply includes_append_l. unfold generate_error_details.
    rewrite <- (append_assoc "Specification: " (href url)).
    apply applyStyle_prefix; try reflexivity.
    apply plain_chars in Hplain as (H1 & H2 & H3).
    unfold plain. now rewrite !has_char_append, H1, H2, H3.
  - intros Hoff. rewrite (generate_error_message_plain _ _ _ _ Hoff).
    do 3 apply includes_append_l. unfold generate_error_details.
    do 3 apply includes_append_l.
    rewrite <- append_assoc. apply includes_prefix.
  - intros Hoff Hcause.
    rewrite (generate_error_message_plain _ _ _ _ Hoff).
    do 3 apply includes_append_l. unfold generate_error_details.
    rewrite Hcause. do 9 apply includes_append_l. apply includes_prefix.
Qed.

(** X14.  [generateHTML] fails in three ways only.  An error of
    [page.waitForFunction] passes through as it is, and so does an error
    of the evaluation of [getVersion].  Any failure of [evaluateHTML] (the
    timeout, a rejected respecIsReady, a module that does not load, a
    payload that does not decode) is replaced by an error whose message
    names the full source URL, with its query, with colours or without.
    With colours off the message also includes the version as detected
    and, whole, the stack of the cause. *)
Theorem generateHTML_failure env url timer w e :
  fst (generateHTML env url timer w) = Throw e ->
  env_waitForFunction env = inr e
  \/ (env_waitForFunction env = inl tt /\ env_getVersion env = inr e)
  \/ exists cause,
       let version :=
         List.map by_value (getVersion (env_respecVersion env)) in
       let msg := generate_error_message env url version cause in
       e = JsError msg
       /\ (plain (href url) = true ->
           includes msg ("Specification: " +:+ href url) = true)
       /\ (env_colors env = false ->
           includes msg
             ("ReSpec version: " +:+ join (env_big env) "." version)
           = true)
       /\ (env_colors env = false -> truthy cause = true ->
           includes msg (env_stack env cause) = true).
Proof.
  unfold generateHTML. rewrite bind_emit, bind_during_await.
  destruct (env_waitForFunction env) as [[]|e'];
    [|intros [= ->]; now left].
  cbv zeta. rewrite bind_emit. unfold bind at 1. rewrite during_run.
  rewrite bind_await.
  destruct (env_getVersion env) as [[]|e'];
    [|intros [= ->]; right; left; now split].
  cbn [ret]. unfold try_catch.
  destruct (bind (emit (EvEvaluate "evaluateHTML")) _ _)
    as [[html|cause|code] w'] eqn:Hrun; cbn [fst].
  - discriminate.
  - cbn [throw fst]. intros [= <-]. right. right. exists cause.
    split; [reflexivity|]. apply generate_error_message_includes.
  - discriminate.
Qed.

(** X15.  Once respecIsReady has resolved and the module of the selected
    path has loaded, [evaluateHTML] returns on the legacy path what
    [exportDocument] gives, untouched, and on the modern path the document
    exactly as serialized, provided that it is well formed; a serialized
    document with an unpaired surrogate makes the modern path throw. *)
Theorem extraction_returns_the_document env version ms w :
  env_race env = ReadyFirst (inl tt) ->
  Forall code_unit (env_serialized env) ->
  match select version with
  | Legacy =>
      env_require env "ui/save-html" = inl tt ->
      fst (evaluateHTML env version ms w) = Normal (env_exportDocument env)
  | Modern =>
      env_require env "core/exporter" = inl tt ->
      fst (evaluateHTML env version ms w)
      = if isWellFormed (env_serialized env)
        then Normal (env_serialized env)
        else Throw (JsError "URI malformed")
  end.
Proof.
  intros Hrace Hunits.
  unfold evaluateHTML.
  destruct (select version); intros Hreq; unfold bind at 1;
    rewrite (timeout_settled _ _ _ _ Hrace).
  - rewrite bind_emit. unfold bind at 1. rewrite require_run, Hreq.
    reflexivity.
  - unfold bind at 1. rewrite require_run, Hreq.
    destruct (isWellFormed (env_serialized env)) eqn:Hwf.
    + destruct (encode_defined _ Hwf) as [e He].
      unfold rsDocToDataURL, decodeDataURL, replace_data_prefix.
      rewrite He, (match_data_prefix_built "text/html" e eq_refl).
      now rewrite (encode_decode _ _ Hunits He).
    + unfold rsDocToDataURL.
      destruct (encodeURIComponent (env_serialized env)) as [e|] eqn:He;
        [|reflexivity].
      rewrite (encoded_well_formed_bounded _ _ (le_n _) e He) in Hwf.
      discriminate.
Qed.

Lemma render_world_any env src timeout timer w :
  outputs (snd (render env src timeout timer w)) = outputs w
  /\ fs (snd (render env src timeout timer w)) = fs w.
Proof.
  split.
  - apply (extends_outputs (render_event timeout)); [|apply render_events].
    intros []; cbn; intros He; try reflexivity; contradiction.
  - apply render_files.
Qed.

Lemma fetchAndWrite_after_acquire env src out options files w1 :
  acquire env options (initial files) = (Normal tt, w1) ->
  fetchAndWrite env src out options (initial files)
  = try_finally (body env src out options) (release env) w1.
Proof.
  intros Hacq. rewrite fetchAndWrite_cut. unfold bind at 1. now rewrite Hacq.
Qed.

Lemma outputs_released w : outputs (released w) = outputs w.
Proof.
  unfold outputs, events, released. cbn [log].
  fold (outs (EvBrowserClose :: log w)). rewrite outs_cons.
  apply app_nil_r.
Qed.

Lemma body_without_markup env src out options w1 :
  let timeout := default 300000 (opt_timeout options) in
  (forall html, fst (render env src timeout (createTimer env timeout) w1)
                <> Normal html)
  \/ (exists e, default (inl tt) (opt_beforeWrite options) = inr e) ->
  exists e w',
    body env src out options w1 = (Throw e, w')
    /\ outputs w' = outputs w1 /\ fs w' = fs w1.
Proof.
  intros timeout Hfail. unfold body, pipeline, bind at 1. fold timeout.
  destruct (render_world_any env src timeout (createTimer env timeout) w1)
    as [Hout2 Hfs2].
  pose proof (render_exit_free env src timeout (createTimer env timeout) w1)
    as Hfree.
  destruct (render env src timeout (createTimer env timeout) w1)
    as [[html|e|c] w2]; cbn [fst snd] in *.
  - destruct Hfail as [Hfail|[e Hhook]]; [now destruct (Hfail html)|].
    unfold deliver. rewrite bind_emit, bind_during_await, Hhook.
    cbv zeta. eexists _, _. split; [reflexivity|].
    split; [|assumption].
    rewrite <- Hout2. unfold outputs, events. cbn [log].
    match goal with |- List.filter is_output (rev ?l) = _ => fold (outs l) end.
    fold (outs (log w2)).
    repeat (rewrite outs_cons || rewrite outs_app || rewrite outs_invoke).
    cbn [is_output]. now rewrite !app_nil_r.
  - eexists _, _. split; [reflexivity|]. now split.
  - now destruct (Hfree c).
Qed.

(** X16.  Nothing is written before the markup exists and the
    [beforeWrite] hook has resolved: when a step up to the extraction
    fails, or the hook rejects, the run writes nothing to the standard
    output, calls [writeFile] for no file, leaves the file system as it
    was, and rejects. *)
Theorem nothing_written_without_markup env src out options files w1 :
  let timeout := default 300000 (opt_timeout options) in
  let run := fetchAndWrite env src out options (initial files) in
  acquire env options (initial files) = (Normal tt, w1) ->
  (forall html, fst (render env src timeout (createTimer env timeout) w1)
                <> Normal html)
  \/ (exists e, default (inl tt) (opt_beforeWrite options) = inr e) ->
  outputs (snd run) = [] /\ fs (snd run) = files
  /\ exists e, fst run = Throw e.
Proof.
  intros timeout run Hacq Hfail. subst run.
  destruct (acquire_world _ _ _ _ Hacq) as [Hout1 Hfs1].
  destruct (body_without_markup env src out options w1 Hfail)
    as (e & w' & Hbody & Hout & Hfs).
  rewrite (fetchAndWrite_after_acquire _ _ _ _ _ _ Hacq).
  rewrite try_finally_release, Hbody. cbn [fst snd].
  rewrite outputs_released, Hout, Hout1. cbn [released fs].
  rewrite Hfs, Hfs1. repeat split.
  destruct (env_browser_close env); eauto.
Qed.

(** *** The bridge comes first *)

#[local] Instance keeps_order_preorder : PreOrder keeps_order.
Proof.
  split.
  - intros w H. exact H.
  - intros a b c Hab Hbc H. apply Hbc, Hab, H.
Qed.

Lemma bridge_first_cons e l :
  is_goto e = false -> bridge_first l -> bridge_first (e :: l).
Proof.
  intros He Hl later url bound earlier Heq.
  destruct later as [|e' later]; cbn [app] in Heq.
  - injection Heq as -> _. discriminate He.
  - injection Heq as _ Heq. exact (Hl _ _ _ _ Heq).
Qed.

Lemma bridge_first_goto url bound l :
  installed l -> bridge_first l -> bridge_first (EvGoto url bound :: l).
Proof.
  intros Hi Hl later url' bound' earlier Heq.
  destruct later as [|e' later]; cbn [app] in Heq.
  - injection Heq as _ _ <-. exact Hi.
  - injection Heq as _ Heq. exact (Hl _ _ _ _ Heq).
Qed.

Lemma bridge_first_app new l :
  Forall (fun e => is_goto e = false) new ->
  bridge_first l -> bridge_first (new ++ l).
Proof.
  intros Hnew Hl. induction Hnew as [|e new He _ IH]; [exact Hl|].
  cbn [app]. now apply bridge_first_cons.
Qed.

Lemma emit_order e : is_goto e = false -> preserves keeps_order (emit e).
Proof. intros He w H. cbn [emit snd log]. now apply bridge_first_cons. Qed.

Lemma emit_all_order cbs :
  preserves keeps_order (emit_all (List.map EvInvoke cbs)).
Proof.
  intros w H. rewrite emit_all_run. cbn [snd log].
  apply bridge_first_app; [|exact H].
  apply List.Forall_rev, List.Forall_forall. intros e He.
  apply List.in_map_iff in He as (cb & <- & _). reflexivity.
Qed.

Lemma store_order path data : preserves keeps_order (store path data).
Proof. intros w H. exact H. Qed.

Lemma process_exit_order {A} code :
  preserves keeps_order (@process_exit A code).
Proof.
  intros w H. cbn [process_exit snd log]. now apply bridge_first_cons.
Qed.

Ltac order :=
  repeat first
    [ apply preserves_ret; typeclasses eauto
    | apply preserves_throw; typeclasses eauto
    | apply preserves_await; typeclasses eauto
    | apply preserves_bind; [typeclasses eauto| |intros ?]
    | apply preserves_try_catch; [typeclasses eauto| |intros ?]
    | progress unfold during
    | apply emit_order; reflexivity
    | apply emit_all_order
    | apply store_order
    | apply process_exit_order
    | match goal with
      | |- preserves _ (match ?x with _ => _ end) => destruct x
      end ].

Lemma render_order env src timeout timer :
  preserves keeps_order (render env src timeout timer).
Proof.
  intros w H.
  unfold render, checkIfReSpec, isRespec, generateHTML, evaluateHTML,
    DocWriter.timeout, require.
  rewrite bind_emit, bind_await.
  destruct (env_newPage env);
    [|now apply bridge_first_cons].
  rewrite bind_emit, bind_await.
  destruct (env_exposeFunction env);
    [|now repeat apply bridge_first_cons].
  rewrite bind_emit, bind_await.
  destruct (env_new_URL env src) as [url|];
    [|now repeat apply bridge_first_cons].
  rewrite bind_emit.
  match goal with
  | |- bridge_first (log (snd (?m ?w0))) =>
      assert (preserves keeps_order m) as Hm; [order | apply Hm]
  end.
  cbn [log]. apply bridge_first_goto.
  - split; cbn; auto.
  - now repeat apply bridge_first_cons.
Qed.

Lemma body_order env src out options :
  preserves keeps_order (body env src out options).
Proof.
  unfold body, pipeline.
  apply preserves_bind; [typeclasses eauto|apply render_order|intros html].
  unfold deliver, writeTo. order.
Qed.

(** X17.  In every run, whenever [page.goto] is called the function
    onRespecErrorOrWarning has been exposed and the script that adds the
    listeners has been registered before: no document is loaded without
    the bridge. *)
Theorem bridge_installed_before_navigation env src out options files :
  bridge_first
    (log (snd (fetchAndWrite env src out options (initial files)))).
Proof.
  assert (bridge_first (log (initial files))) as H0.
  { intros later url bound earlier Heq. now destruct later. }
  rewrite fetchAndWrite_cut. unfold bind at 1.
  assert (preserves keeps_order (acquire env options)) as Hacq
    by (unfold acquire; order).
  specialize (Hacq (initial files) H0).
  destruct (acquire env options (initial files)) as [[[]|e|c] w1];
    cbn [snd] in *; try assumption.
  rewrite try_finally_release.
  pose proof (body_order env src out options w1 Hacq) as Hbody.
  destruct (body env src out options w1) as [[html|e|c] w2];
    cbn [snd released log] in *; try assumption;
    now apply bridge_first_cons.
Qed.

End DocWriterParts.

(** ** getVersion reads a release version back *)

Section VersionStrings.

Lemma digit_bounds c d :
  digit c = Some d ->
  48 <= Z.of_nat (nat_of_ascii c) <= 57
  /\ d = Z.of_nat (nat_of_ascii c) - 48.
Proof.
  unfold digit.
  destruct (48 <=? Z.of_nat (nat_of_ascii c)) eqn:H1; [|discriminate].
  destruct (Z.of_nat (nat_of_ascii c) <=? 57) eqn:H2; [|discriminate].
  cbn [andb]. intros [= <-].
  apply Z.leb_le in H1, H2. lia.
Qed.

Lemma digit_pretty_N_char d :
  (d < 10)%N -> digit (pretty_N_char d) = Some (Z.of_N d).
Proof.
  intros Hd.
  assert (d = 0 \/ d = 1 \/ d = 2 \/ d = 3 \/ d = 4 \/ d = 5 \/ d = 6
          \/ d = 7 \/ d = 8 \/ d = 9)%N as Hcases by lia.
  repeat (destruct Hcases as [->|Hcases]; [reflexivity|]).
  now subst d.
Qed.

Lemma leading_digits_pretty (x : N) :
  (0 < x)%N ->
  forall s seen,
    leading_digits 0 seen (pretty_N_go x s)
    = leading_digits (Z.of_N x) true s.
Proof.
  induction (N.lt_wf_0 x) as [x _ IH]. intros Hx s seen.
  rewrite pretty_N_go_step by assumption.
  pose proof (N.Div0.div_mod x 10) as Hdm.
  pose proof (N.mod_lt x 10 ltac:(discriminate)) as Hr.
  destruct (N.eq_dec (x / 10)%N 0%N) as [Hq|Hq].
  - rewrite Hq, pretty_N_go_0. cbn [leading_digits].
    rewrite digit_pretty_N_char by assumption.
    f_equal. lia.
  - rewrite IH; [|apply N.div_lt; lia|lia].
    cbn [leading_digits]. rewrite digit_pretty_N_char by assumption.
    f_equal. lia.
Qed.

Lemma pretty_go_first (x : N) :
  (0 < x)%N ->
  forall s, exists c t d, pretty_N_go x s = String c t /\ digit c = Some d.
Proof.
  induction (N.lt_wf_0 x) as [x _ IH]. intros Hx s.
  rewrite pretty_N_go_step by assumption.
  destruct (N.eq_dec (x / 10)%N 0%N) as [Hq|Hq].
  - rewrite Hq, pretty_N_go_0. eexists _, _, _. split; [reflexivity|].
    apply digit_pretty_N_char, N.mod_lt. discriminate.
  - apply IH; [apply N.div_lt; lia | now apply N.neq_0_lt_0].
Qed.

Lemma String_of_positive p : String_of (Z.pos p) = pretty_N_go (N.pos p) "".
Proof. reflexivity. Qed.

Lemma String_of_first (n : N) :
  exists c t d, String_of (Z.of_N n) = String c t /\ digit c = Some d.
Proof.
  destruct n as [|p].
  - exists "0"%char, "", 0. split; reflexivity.
  - cbn [Z.of_N]. rewrite String_of_positive.
    apply pretty_go_first. reflexivity.
Qed.

Lemma to_double_safe n : n <= MAX_SAFE_INTEGER -> to_double n = Some n.
Proof.
  intros H. unfold to_double. now rewrite (proj2 (Z.leb_le _ _) H).
Qed.

(** A string that starts with a digit has no sign and no space to skip. *)
Lemma parseInt_digits c t d :
  digit c = Some d ->
  parseInt (String c t)
  = match leading_digits 0 false (String c t) with
    | Some mathInt =>
        match to_double mathInt with
        | Some number => Int (1 * number)
        | None => Infinity (1 <? 0)
        end
    | None => NaN
    end.
Proof.
  destruct c as [[] [] [] [] [] [] [] []]; intros H;
    try discriminate H; reflexivity.
Qed.

Lemma parseInt_String_of (n : N) :
  Z.of_N n <= MAX_SAFE_INTEGER ->
  parseInt (String_of (Z.of_N n)) = Int (Z.of_N n).
Proof.
  intros Hsafe. destruct n as [|p]; [reflexivity|].
  cbn [Z.of_N] in *. rewrite String_of_positive.
  destruct (pretty_go_first (N.pos p) eq_refl "") as (c & t & d & Heq & Hd).
  rewrite Heq, (parseInt_digits c t d Hd), <- Heq.
  rewrite leading_digits_pretty by reflexivity.
  cbn [leading_digits Z.of_N]. rewrite (to_double_safe _ Hsafe).
  f_equal; lia.
Qed.

(** Beyond the safe integers [parseInt] rounds: 2^53 + 1 is read as 2^53,
    and digits beyond the range of a double as an infinity, which arrives
    as [null]. *)
Example getVersion_rounds :
  getVersion "9007199254740993.1.0"
  = [Int 9007199254740992; Int 1; Int 0]
  /\ List.map by_value
       (getVersion ("1" +:+ String.concat "" (repeat "0000000000" 31) +:+ ".0"))
     = [Null; Int 0].
Proof. split; vm_compute; reflexivity. Qed.

Lemma split_no_separator sep s :
  has_char sep s = false -> split sep s = [s].
Proof.
  induction s as [|a s IH]; [reflexivity|].
  cbn [has_char split]. intros H. apply orb_false_iff in H as [Ha Hs].
  now rewrite Ha, (IH Hs).
Qed.

Lemma split_at_separator sep s t :
  has_char sep s = false ->
  split sep (s +:+ String sep t) = s :: split sep t.
Proof.
  induction s as [|a s IH]; intros H.
  - change ("" +:+ String sep t) with (String sep t).
    cbn [split]. now rewrite Ascii.eqb_refl.
  - cbn [has_char] in H. apply orb_false_iff in H as [Ha Hs].
    change (String a s +:+ String sep t) with (String a (s +:+ String sep t)).
    cbn [split]. now rewrite Ha, (IH Hs).
Qed.

Lemma no_dot_in_number (n : N) : has_char "." (String_of (Z.of_N n)) = false.
Proof. now apply String_of_has_char. Qed.

Lemma dotted_is_not_the_edition v :
  String.eqb (dotted v) "Developer Edition" = false.
Proof.
  destruct v as [[a b] c]. unfold dotted.
  destruct (String_of_first a) as (x & t & d & -> & Hd).
  apply String.eqb_neq. intros [= -> _]. discriminate Hd.
Qed.

Lemma getVersion_dotted v : safe v -> getVersion (dotted v) = detected v.
Proof.
  unfold getVersion. rewrite dotted_is_not_the_edition.
  destruct v as [[a b] c]. unfold safe, dotted, detected.
  intros (Ha & Hb & Hc).
  change (List.map parseInt
            (split "."
               (String_of (Z.of_N a)
                  +:+ String "."%char
                        (String_of (Z.of_N b)
                           +:+ String "."%char (String_of (Z.of_N c)))))
          = [Int (Z.of_N a); Int (Z.of_N b); Int (Z.of_N c)]).
  rewrite !split_at_separator, split_no_separator by apply no_dot_in_number.
  cbn [List.map]. now rewrite !parseInt_String_of.
Qed.

(** X18.  [getVersion] reads the version string of a release back into
    its numbers: for safe integers, which a double holds exactly, the
    string "major.minor.patch" gives [major, minor, patch].  So a
    document that reports such a string is exported the legacy way
    exactly when its version is below 20.10.0. *)
Theorem getVersion_reads_release (v : Version) :
  safe v ->
  getVersion (dotted v) = detected v
  /\ (select (List.map by_value (getVersion (dotted v))) = Legacy
      <-> lex_lt v (20, 10, 0)%N).
Proof.
  intros Hsafe. split; [now apply getVersion_dotted|].
  rewrite (getVersion_dotted _ Hsafe), by_value_detected.
  apply select_detected.
Qed.

End VersionStrings.

(** ** A file that is written stays written *)

Section LateFailure.

Lemma body_late_failure env src path options w1 w2 html e :
  let timeout := default 300000 (opt_timeout options) in
  render env src timeout (createTimer env timeout) w1 = (Normal html, w2) ->
  default (inl tt) (opt_beforeWrite options) = inl tt ->
  path <> "" ->
  env_writeFile env (newFilePath env path) = inl tt ->
  env_page_close env = inr e ->
  exists w',
    body env src (Some path) options w1 = (Throw e, w')
    /\ fs w' = <[newFilePath env path := utf8_encode html]> (fs w2).
Proof.
  intros timeout Hrender Hhook Hpath Hwrite Hpage.
  unfold body, pipeline, bind at 1. fold timeout. rewrite Hrender.
  unfold deliver. rewrite bind_emit, bind_during_await, Hhook. cbv zeta.
  destruct path as [|a path]; [contradiction|].
  unfold bind at 1. unfold writeTo. rewrite bind_emit, during_run, Hwrite.
  cbn [store].
  rewrite bind_emit, bind_during_await, Hpage. cbv zeta.
  eexists. split; reflexivity.
Qed.

(** X19.  A failure after the write does not undo it: when the output file
    has been written and [page.close()] then rejects, [fetchAndWrite]
    rejects, and the file holds the UTF-8 encoding of the markup all the
    same. *)
Theorem written_file_survives_late_failure
    env src path options files w1 w2 html e :
  let timeout := default 300000 (opt_timeout options) in
  let run := fetchAndWrite env src (Some path) options (initial files) in
  acquire env options (initial files) = (Normal tt, w1) ->
  render env src timeout (createTimer env timeout) w1 = (Normal html, w2) ->
  default (inl tt) (opt_beforeWrite options) = inl tt ->
  path <> "" ->
  env_writeFile env (newFilePath env path) = inl tt ->
  env_page_close env = inr e ->
  (exists e', fst run = Throw e')
  /\ fs (snd run) = <[newFilePath env path := utf8_encode html]> files.
Proof.
  intros timeout run Hacq Hrender Hhook Hpath Hwrite Hpage. subst run.
  destruct (acquire_world _ _ _ _ Hacq) as [_ Hfs1].
  destruct (render_world _ _ _ _ _ _ _ Hrender) as [_ Hfs2].
  destruct (body_late_failure env src path options w1 w2 html e
              Hrender Hhook Hpath Hwrite Hpage) as (w' & Hbody & Hfs).
  rewrite (fetchAndWrite_after_acquire _ _ _ _ _ _ Hacq).
  rewrite try_finally_release, Hbody. cbn [fst snd released fs].
  split; [destruct (env_browser_close env); eauto|].
  now rewrite Hfs, Hfs2, Hfs1.
Qed.

End LateFailure.

(** ** Fragments without an escape *)

Section PlainFragments.
Import LocalRefs.

Lemma decode_without_percent (s : URI.DOMString) :
  Forall (fun c => c <> 37) s -> URI.decodeURIComponent s = Some s.
Proof.
  induction 1 as [|c s Hc _ IH]; [reflexivity|].
  now rewrite decode_plain, IH.
Qed.

(** X7.  A fragment without a percent sign is looked up as it is written:
    such a link is a broken link exactly when the text after the "#" is
    neither an id nor a name of the document. *)
Theorem plain_fragment_is_looked_up_verbatim
    (doc : Document) (elem : Anchor) (fragment : URI.DOMString) :
  hash elem = 35 :: fragment ->
  Forall (fun c => c <> 37) fragment ->
  looked_up doc elem = true ->
  isBrokenHyperlink doc elem
  = Some (negb (bool_decide (fragment ∈ ids doc))
          && negb (bool_decide (fragment ∈ names doc))).
Proof.
  intros Hhash Hplain Hlook. unfold isBrokenHyperlink, looked_up in *.
  rewrite Hhash in *. apply negb_true_iff in Hlook. rewrite Hlook.
  cbn [substring1]. now rewrite decode_without_percent.
Qed.

End PlainFragments.

(** ** The further properties on sample runs *)

Lemma nested_pre_witness :
  Examples.increments (Examples.mkElement Examples.pre false "" "" "nested" true)
  = false
  /\ Examples.published "Example" Samples.addId Samples.examples
     = Examples.published "Example" Samples.addId
         [ Examples.mkElement Examples.aside false "Intro" "" "<p>text</p>"
             false;
           Examples.mkElement Examples.pre true "" "bad" "x = 1" false ].
Proof.
  split; [reflexivity|].
  exact (proj1 (nested_pre_is_transparent "Example" Samples.addId
                  [Examples.mkElement Examples.aside false "Intro" ""
                     "<p>text</p>" false]
                  [Examples.mkElement Examples.pre true "" "bad" "x = 1"
                     false]
                  (Examples.mkElement Examples.pre false "" "" "nested" true)
                  eq_refl)).
Defined.

Lemma remaining_budget_witness :
  1000 <= 9000
  /\ 0 <= remaining (createTimer Samples.env_success 300000) 9000
       <= remaining (createTimer Samples.env_success 300000) 1000.
Proof.
  split; [lia|].
  exact (proj1 (remaining_budget (createTimer Samples.env_success 300000)
                  1000 9000 ltac:(lia))).
Defined.

Lemma acquisition_failure_witness :
  env_launch Samples.env_no_browser = inr Samples.launch_error
  /\ fst (fetchAndWrite Samples.env_no_browser Samples.src (Some "out.html")
            Samples.no_options (initial ∅))
     = Throw Samples.launch_error.
Proof.
  split; [reflexivity|].
  exact (proj1 (acquisition_failure_is_fatal Samples.env_no_browser
                  Samples.src (Some "out.html") Samples.no_options ∅
                  Samples.launch_error
                  (or_intror (conj (ex_intro _ _ eq_refl) eq_refl)))).
Defined.

Lemma accepted_response_witness :
  navigated Samples.env_local_file Samples.src Samples.url
    {| ok := false; status := 0 |}
  /\ render Samples.env_local_file Samples.src 300000
       (createTimer Samples.env_local_file 300000) (initial ∅)
     = (checkIfReSpec Samples.env_local_file ;;
        generateHTML Samples.env_local_file Samples.url
          (createTimer Samples.env_local_file 300000))
         {| log := log_navigated Samples.env_local_file Samples.url 300000
                     (initial ∅);
            fs := ∅ |}.
Proof.
  assert (navigated Samples.env_local_file Samples.src Samples.url
            {| ok := false; status := 0 |}) as Hnav by (repeat split).
  split; [exact Hnav|].
  exact (accepted_response_is_let_through Samples.env_local_file Samples.src
           300000 (createTimer Samples.env_local_file 300000) Samples.url
           {| ok := false; status := 0 |} (initial ∅) Hnav
           (or_intror eq_refl)).
Defined.

Lemma not_a_respec_document_witness :
  env_head_script Samples.env_not_respec = false
  /\ env_respec_ui Samples.env_not_respec = false
  /\ fst (render Samples.env_not_respec Samples.src 300000
            (createTimer Samples.env_not_respec 300000) (initial ∅))
     = Throw (JsError (not_respec_message Samples.env_not_respec)).
Proof.
  split; [reflexivity|]. split; [reflexivity|].
  assert (navigated Samples.env_not_respec Samples.src Samples.url
            {| ok := true; status := 200 |}) as Hnav by (repeat split).
  now rewrite (not_a_respec_document_is_rejected Samples.env_not_respec
                 Samples.src 300000
                 (createTimer Samples.env_not_respec 300000) Samples.url
                 {| ok := true; status := 200 |} (initial ∅) Hnav
                 eq_refl eq_refl eq_refl).
Defined.

Lemma generateHTML_failure_witness :
  exists e,
    fst (generateHTML Samples.env_never_ready Samples.url
           (createTimer Samples.env_never_ready 300000) (initial ∅))
    = Throw e
    /\ exists cause,
         e = JsError
               (generate_error_message Samples.env_never_ready Samples.url
                  [Int 25; Int 1; Int 0] cause)
         /\ includes
              (generate_error_message Samples.env_never_ready Samples.url
                 [Int 25; Int 1; Int 0] cause)
              "Specification: https://example.org/spec.html?key=SECRET"
            = true.
Proof.
  eexists. split; [vm_compute; reflexivity|].
  destruct (generateHTML_failure Samples.env_never_ready Samples.url
              (createTimer Samples.env_never_ready 300000) (initial ∅) _
              eq_refl) as [Hwait|[[_ Hversion]|(cause & Heq & Hurl & _)]].
  - discriminate Hwait.
  - discriminate Hversion.
  - exists cause. split; [exact Heq | exact (Hurl eq_refl)].
Defined.

Lemma extraction_returns_the_document_witness :
  env_race Samples.env_success = ReadyFirst (inl tt)
  /\ Forall URI.code_unit (env_serialized Samples.env_success)
  /\ fst (evaluateHTML Samples.env_success [Int 25; Int 1; Int 0] 292000
            (initial ∅))
     = Normal Samples.markup.
Proof.
  assert (Forall URI.code_unit (env_serialized Samples.env_success)) as Hunits
    by (repeat constructor; unfold URI.code_unit; lia).
  split; [reflexivity|]. split; [exact Hunits|].
  exact (extraction_returns_the_document Samples.env_success
           [Int 25; Int 1; Int 0] 292000 (initial ∅) eq_refl Hunits eq_refl).
Defined.

Lemma nothing_written_witness :
  outputs (snd (fetchAndWrite Samples.env_never_ready Samples.src
                  (Some "out.html") Samples.no_options (initial ∅)))
  = []
  /\ fs (snd (fetchAndWrite Samples.env_never_ready Samples.src
                (Some "out.html") Samples.no_options (initial ∅)))
     = ∅.
Proof.
  assert (acquire Samples.env_never_ready Samples.no_options (initial ∅)
          = (Normal tt, Samples.world_acquired)) as Hacq
    by (vm_compute; reflexivity).
  destruct (nothing_written_without_markup Samples.env_never_ready
              Samples.src (Some "out.html") Samples.no_options ∅
              Samples.world_acquired Hacq) as (Hout & Hfs & _).
  - left. intros html. vm_compute. discriminate.
  - split; [exact Hout | exact Hfs].
Defined.

Lemma written_file_survives_witness :
  env_page_close Samples.env_page_close_fails = inr Samples.page_close_error
  /\ (exists e,
        fst (fetchAndWrite Samples.env_page_close_fails Samples.src
               (Some "out.html") Samples.no_options (initial ∅))
        = Throw e)
  /\ fs (snd (fetchAndWrite Samples.env_page_close_fails Samples.src
                (Some "out.html") Samples.no_options (initial ∅)))
       !! "/home/user/out.html"
     = Some (utf8_encode Samples.markup).
Proof.
  assert (acquire Samples.env_page_close_fails Samples.no_options (initial ∅)
          = (Normal tt, Samples.world_acquired)) as Hacq
    by (vm_compute; reflexivity).
  assert (render Samples.env_page_close_fails Samples.src 300000
            (createTimer Samples.env_page_close_fails 300000)
            Samples.world_acquired
          = (Normal Samples.markup, Samples.world_rendered)) as Hrender
    by (vm_compute; reflexivity).
  destruct (written_file_survives_late_failure Samples.env_page_close_fails
              Samples.src "out.html" Samples.no_options ∅ _ _
              Samples.markup Samples.page_close_error Hacq Hrender
              eq_refl ltac:(discriminate) eq_refl eq_refl)
    as [Hrun Hfs].
  split; [reflexivity|]. split; [exact Hrun|].
  rewrite Hfs. apply lookup_insert_eq.
Defined.

Lemma plain_fragment_witness :
  LocalRefs.hash Samples.link_missing = 35 :: URI.units "missing"
  /\ LocalRefs.isBrokenHyperlink (Samples.document Samples.links)
       Samples.link_missing
     = Some true.
Proof.
  split; [reflexivity|].
  rewrite (plain_fragment_is_looked_up_verbatim
             (Samples.document Samples.links) Samples.link_missing
             (URI.units "missing") eq_refl).
  - vm_compute. reflexivity.
  - repeat constructor; discriminate.
  - reflexivity.
Defined.

Lemma rule_off_witness :
  LocalRefs.enabled LocalRefs.LintAbsent = false
  /\ LocalRefs.run LocalRefs.LintAbsent
       (Samples.document [Samples.link_malformed])
     = LocalRefs.Returned None.
Proof.
  split; [reflexivity|].
  exact (proj2 (run_throws_iff_malformed_fragment LocalRefs.LintAbsent
                  (Samples.document [Samples.link_malformed])) eq_refl).
Defined.

Lemma getVersion_reads_release_witness :
  safe (20, 9, 7)%N
  /\ getVersion "20.9.7" = [Int 20; Int 9; Int 7].
Proof.
  assert (safe (20, 9, 7)%N) as Hsafe by (repeat split; discriminate).
  split; [exact Hsafe|].
  exact (proj1 (getVersion_reads_release (20, 9, 7)%N Hsafe)).
Defined.
